(** * Claude Island for Linux: session store, hook endpoint and log tailer

    A shallow embedding of the backend service:
    - [state_manager.py]        (module [state_manager]),
    - [conversation_parser.py]  (module [conversation_parser]),
    - [file_monitor.py]         (module [file_monitor]),
    - [socket_server.py]        (module [socket_server]),
    followed by the properties established about them.

    Conventions.  Python dictionaries keyed by strings are [gmap string _]
    (the order of insertion is not kept); Python lists are [list];
    [Optional[T]] is [option T].  A value of type [Any] (tool parameters,
    tool results, decoded log records) is a [Json] value.  Every call of
    [datetime.now()] inside one operation is a reading of a [Clock]:
    [clk i] is the i-th reading made by that operation.  Objects mutated in
    place (a session of the store, a parser of the file handler) are
    written back into the dictionary that holds them. *)

From Stdlib Require Import ZArith List String Ascii Lia.
From stdpp Require Import base option list strings gmap.

Local Open Scope string_scope.
Local Open Scope Z_scope.
Local Set Warnings "-register-all".

(** ** Values of type [Any] *)

Inductive Json : Type :=
| JNull
| JBool (b : bool)
| JNum (n : Z)
| JStr (s : string)
| JArr (items : list Json)
| JObj (fields : list (string * Json)).

(** A decoded JSON object, [dict[str, Any]], in key order. *)
Definition Dict : Type := list (string * Json).

(** [d.get(key)] *)
Fixpoint dict_get (key : string) (d : Dict) : option Json :=
  match d with
  | [] => None
  | (k, v) :: rest => if String.eqb k key then Some v else dict_get key rest
  end.

(** A wall-clock value ([datetime]). *)
Definition Time : Type := Z.

(** The successive readings of [datetime.now()] made by one operation. *)
Definition Clock : Type := nat → Time.

(** ** state_manager.py *)

Module state_manager.

Inductive SessionPhase : Type :=
| IDLE
| PROCESSING
| RUNNING_TOOL
| WAITING_APPROVAL
| COMPLETED
| ERROR.

#[export] Instance SessionPhase_eq_dec : EqDecision SessionPhase.
Proof. solve_decision. Defined.


Record Tool : Type := mkTool {
  name : string;
  status : string;
  start_time : Time;
  end_time : option Time;
  result : option Json;
  parameters : option Json;
}.

(** The dictionary stored in [Session.pending_approval]: keys
    ["tool_name"], ["parameters"], ["timestamp"]. *)
Record ApprovalRequest : Type := mkApprovalRequest {
  ap_tool_name : string;
  ap_parameters : Json;
  ap_timestamp : Time;
}.

Record Session : Type := mkSession {
  session_id : string;
  phase : SessionPhase;
  active_tool : option Tool;
  pending_approval : option ApprovalRequest;
  tools : list Tool;
  conversation : list Dict;
  created_at : Time;
  updated_at : Time;
}.

(** A hook event, read through the keys the service reads.  The wire
    contract makes ["type"], ["session_id"] and ["tool_name"] strings; an
    absent key is [None]. *)
Record Event : Type := mkEvent {
  ev_type : option string;
  ev_session_id : option string;
  ev_tool_name : option string;
  ev_parameters : option Json;
  ev_result : option Json;
}.

(** [SessionStore]: the [sessions] dictionary and the [_pending_tool_cache]
    (written by PreToolUse, popped by PostToolUse, never read).  The
    [observers] are callbacks of other components; they are handed the
    session after each operation and are not part of the store's state. *)
Record SessionStore : Type := mkStore {
  sessions : gmap string Session;
  _pending_tool_cache : gmap string Tool;
}.

(** [SessionStore()] *)
Definition empty_store : SessionStore :=
  {| sessions := ∅; _pending_tool_cache := ∅ |}.

(** Field updates of the mutable [Session] object. *)
Definition set_phase (p : SessionPhase) (s : Session) : Session :=
  mkSession (session_id s) p (active_tool s) (pending_approval s)
            (tools s) (conversation s) (created_at s) (updated_at s).

Definition set_active_tool (t : option Tool) (s : Session) : Session :=
  mkSession (session_id s) (phase s) t (pending_approval s)
            (tools s) (conversation s) (created_at s) (updated_at s).

Definition set_pending_approval (a : option ApprovalRequest) (s : Session) : Session :=
  mkSession (session_id s) (phase s) (active_tool s) a
            (tools s) (conversation s) (created_at s) (updated_at s).

Definition set_tools (ts : list Tool) (s : Session) : Session :=
  mkSession (session_id s) (phase s) (active_tool s) (pending_approval s)
            ts (conversation s) (created_at s) (updated_at s).

Definition set_conversation (c : list Dict) (s : Session) : Session :=
  mkSession (session_id s) (phase s) (active_tool s) (pending_approval s)
            (tools s) c (created_at s) (updated_at s).

Definition set_updated_at (t : Time) (s : Session) : Session :=
  mkSession (session_id s) (phase s) (active_tool s) (pending_approval s)
            (tools s) (conversation s) (created_at s) t.

(** [Session(session_id=session_id, phase=SessionPhase.IDLE)]: the two
    timestamp defaults are two readings of the clock. *)
Definition new_session (sid : string) (t_created t_updated : Time) : Session :=
  {| session_id := sid; phase := IDLE; active_tool := None;
     pending_approval := None; tools := []; conversation := [];
     created_at := t_created; updated_at := t_updated |}.

(** [f"{session.session_id}:{tool_name}"] *)
Definition cache_key (s : Session) (tool_name : string) : string :=
  session_id s +:+ ":" +:+ tool_name.

(** [event.get("tool_name", "Unknown")] *)
Definition event_tool_name (event : Event) : string :=
  default "Unknown" (ev_tool_name event).

(** The handlers act on the session object and, for the tool handlers, on
    the store's cache: each returns the new session and the new cache. *)

Definition _handle_session_start (session : Session) : Session :=
  set_phase IDLE session.

Definition _handle_session_end (session : Session) : Session :=
  set_phase COMPLETED session.

Definition _handle_user_prompt (session : Session) : Session :=
  set_phase PROCESSING session.

Definition _handle_pre_tool_use (now : Time) (event : Event)
    (cache : gmap string Tool) (session : Session) : Session * gmap string Tool :=
  let tool_name := event_tool_name event in
  let tool := {| name := tool_name; status := "running"; start_time := now;
                 end_time := None; result := None;
                 parameters := ev_parameters event |} in
  let session := set_active_tool (Some tool) session in
  let session := set_phase RUNNING_TOOL session in
  (session, <[cache_key session tool_name := tool]> cache).

Definition _handle_post_tool_use (now : Time) (event : Event)
    (cache : gmap string Tool) (session : Session) : Session * gmap string Tool :=
  let tool_name := event_tool_name event in
  let session :=
    match active_tool session with
    | Some t =>
        if String.eqb (name t) tool_name then
          let t := {| name := name t; status := "success";
                      start_time := start_time t; end_time := Some now;
                      result := ev_result event;
                      parameters := parameters t |} in
          let session := set_tools (tools session ++ [t])%list session in
          set_active_tool None session
        else session
    | None => session
    end in
  let session := set_phase IDLE session in
  (session, delete (cache_key session tool_name) cache).

Definition _handle_permission_request (now : Time) (event : Event)
    (session : Session) : Session :=
  let tool_name := event_tool_name event in
  let session :=
    set_pending_approval
      (Some {| ap_tool_name := tool_name;
               ap_parameters := default (JObj []) (ev_parameters event);
               ap_timestamp := now |}) session in
  set_phase WAITING_APPROVAL session.

Definition _handle_notification (session : Session) : Session := session.

Definition _handle_stop (session : Session) : Session :=
  let session := set_phase IDLE session in
  set_active_tool None session.

(** [event_type == kind], where [event_type = event.get("type")]. *)
Definition type_is (event : Event) (kind : string) : bool :=
  match ev_type event with
  | Some t => String.eqb t kind
  | None => false
  end.

(** The [if]/[elif] chain of [process_event] on [event_type]; the final
    [else] only logs. *)
Definition dispatch (now : Time) (event : Event) (cache : gmap string Tool)
    (session : Session) : Session * gmap string Tool :=
  if type_is event "SessionStart" then (_handle_session_start session, cache)
  else if type_is event "SessionEnd" then (_handle_session_end session, cache)
  else if type_is event "UserPromptSubmit" then (_handle_user_prompt session, cache)
  else if type_is event "PreToolUse" then _handle_pre_tool_use now event cache session
  else if type_is event "PostToolUse" then _handle_post_tool_use now event cache session
  else if type_is event "PermissionRequest"
       then (_handle_permission_request now event session, cache)
  else if type_is event "Notification" then (_handle_notification session, cache)
  else if type_is event "Stop" || type_is event "SubagentStop"
       then (_handle_stop session, cache)
  else (session, cache).

(** [not session_id]: the key is absent or the string is empty. *)
Definition falsy (sid : option string) : bool :=
  match sid with
  | None => true
  | Some s => String.eqb s ""
  end.

(** The "ensure session exists" step of [process_event]: the session of
    [sid], created when absent, and the number of clock readings made so
    far (the two timestamp defaults of a created session). *)
Definition ensure_session (clk : Clock) (sid : string) (self : SessionStore)
    : Session * nat :=
  match sessions self !! sid with
  | Some s => (s, 0%nat)
  | None => (new_session sid (clk 0%nat) (clk 1%nat), 2%nat)
  end.

(** [SessionStore.process_event].  An event whose [session_id] is absent or
    empty is dropped.  Otherwise the session is created when absent,
    [updated_at] takes the next reading of the clock, and the handler, when
    it reads the clock, takes the one after. *)
Definition process_event (clk : Clock) (event : Event) (self : SessionStore)
    : SessionStore :=
  if falsy (ev_session_id event) then self
  else
    let sid := default "" (ev_session_id event) in
    let '(session, k) := ensure_session clk sid self in
    let session := set_updated_at (clk k) session in
    let '(session, cache) :=
      dispatch (clk (S k)) event (_pending_tool_cache self) session in
    {| sessions := <[sid := session]> (sessions self);
       _pending_tool_cache := cache |}.

(** [SessionStore.add_message] *)
Definition add_message (clk : Clock) (sid : string) (message : Dict)
    (self : SessionStore) : SessionStore :=
  match sessions self !! sid with
  | None => self
  | Some session =>
      let session := set_conversation (conversation session ++ [message])%list session in
      let session := set_updated_at (clk 0%nat) session in
      {| sessions := <[sid := session]> (sessions self);
         _pending_tool_cache := _pending_tool_cache self |}
  end.

(** [SessionStore.clear_approval] *)
Definition clear_approval (sid : string) (self : SessionStore) : SessionStore :=
  match sessions self !! sid with
  | None => self
  | Some session =>
      let session := set_pending_approval None session in
      let session := set_phase IDLE session in
      {| sessions := <[sid := session]> (sessions self);
         _pending_tool_cache := _pending_tool_cache self |}
  end.

(** [SessionStore.get_session] *)
Definition get_session (sid : string) (self : SessionStore) : option Session :=
  sessions self !! sid.

End state_manager.

(** ** conversation_parser.py *)

Module conversation_parser.

(** A [pathlib.Path], as its sequence of components. *)
Definition Path : Type := list string.

(** [path.name]: the last component, [""] when there is none. *)
Definition path_name (p : Path) : string := List.last p "".

(** [path.parent] *)
Definition path_parent (p : Path) : Path := List.removelast p.

(** The files under the sessions root: path to text.  The text of a log is
    taken to be ASCII, so that a file position is an index into it; a file
    that is there can be read. *)
Definition FileSystem : Type := gmap Path string.

Record ConversationParser : Type := mkParser {
  session_dir : Path;
  conversation_file : Path;
  last_position : nat;
}.

(** [ConversationParser(session_dir)] *)
Definition new_parser (dir : Path) : ConversationParser :=
  {| session_dir := dir;
     conversation_file := (dir ++ ["conversation.jsonl"])%list;
     last_position := 0 |}.

(** [str.isspace] on an ASCII character: tab, line feed, vertical tab,
    form feed, carriage return, the four separators 28-31, and space. *)
Definition is_space (c : ascii) : bool :=
  let n := nat_of_ascii c in
  ((9 <=? n)%nat && (n <=? 13)%nat) || ((28 <=? n)%nat && (n <=? 32)%nat).

(** A line terminator of a file opened in text mode (universal newlines). *)
Definition is_newline (c : ascii) : bool :=
  let n := nat_of_ascii c in
  (n =? 10)%nat || (n =? 13)%nat.

Fixpoint lstrip (s : string) : string :=
  match s with
  | EmptyString => EmptyString
  | String c rest => if is_space c then lstrip rest else s
  end.

Definition rstrip (s : string) : string :=
  String.rev (lstrip (String.rev s)).

(** [str.strip()] *)
Definition strip (s : string) : string := rstrip (lstrip s).

(** [f.seek(pos)] followed by reading: the text from [pos] on. *)
Fixpoint text_from (pos : nat) (s : string) : string :=
  match pos, s with
  | O, _ => s
  | S n, EmptyString => EmptyString
  | S n, String _ rest => text_from n rest
  end.

(** [for line in f]: the lines of the remaining text, the last one also
    when it has no terminator.  Terminators are left out; [strip] removes
    them in the source. *)
Fixpoint readlines (s : string) : list string :=
  match s with
  | EmptyString => []
  | String c rest =>
      if is_newline c then EmptyString :: readlines rest
      else match readlines rest with
           | [] => [String c EmptyString]
           | line :: lines => String c line :: lines
           end
  end.

Section Parser.

(** [json.loads] on one line: [None] for [json.JSONDecodeError]. *)
Variable json_loads : string → option Dict.

(** The body of the [for line in f] loop. *)
Definition parse_line (line : string) : option Dict :=
  let line := strip line in
  if String.eqb line "" then None else json_loads line.

(** [ConversationParser.parse_incremental] *)
Definition parse_incremental (fs : FileSystem) (self : ConversationParser)
    : list Dict * ConversationParser :=
  match fs !! conversation_file self with
  | None => ([], self)
  | Some content =>
      let text := text_from (last_position self) content in
      let new_messages := omap parse_line (readlines text) in
      (new_messages,
       {| session_dir := session_dir self;
          conversation_file := conversation_file self;
          last_position := (last_position self + String.length text)%nat |})
  end.

(** [ConversationParser.reset] *)
Definition reset (self : ConversationParser) : ConversationParser :=
  {| session_dir := session_dir self;
     conversation_file := conversation_file self;
     last_position := 0 |}.

(** [ConversationParser.parse_full] *)
Definition parse_full (fs : FileSystem) (self : ConversationParser)
    : list Dict * ConversationParser :=
  parse_incremental fs (reset self).

End Parser.

(** [message.get("type") == "user"] *)
Definition is_user (message : Dict) : bool :=
  match dict_get "type" message with
  | Some (JStr t) => String.eqb t "user"
  | _ => false
  end.

(** [detect_clear_command].  [None] stands for the [AttributeError] raised
    by [content.strip()] when the content of a user message is not a
    string. *)
Fixpoint detect_clear_command (messages : list Dict) : option bool :=
  match messages with
  | [] => Some false
  | message :: rest =>
      if is_user message then
        match default (JStr "") (dict_get "content" message) with
        | JStr content =>
            if String.prefix "/clear" (strip content) then Some true
            else detect_clear_command rest
        | _ => None
        end
      else detect_clear_command rest
  end.

(** [SubagentParser]: the log of one subagent task, next to the
    conversation of the session. *)
Module SubagentParser.

Record t : Type := mk {
  session_dir : Path;
  task_id : string;
  subagent_file : Path;
}.

(** [SubagentParser(session_dir, task_id)] *)
Definition new (dir : Path) (task : string) : t :=
  {| session_dir := dir; task_id := task;
     subagent_file := (dir ++ ["task-" +:+ task +:+ ".jsonl"])%list |}.

(** [SubagentParser.parse] *)
Definition parse (json_loads : string → option Dict) (fs : FileSystem) (self : t)
    : list Dict :=
  match fs !! subagent_file self with
  | None => []
  | Some content => omap (parse_line json_loads) (readlines content)
  end.

End SubagentParser.

End conversation_parser.

(** ** file_monitor.py *)

Module file_monitor.
Import state_manager conversation_parser.

(** A [watchdog] event. *)
Record FileSystemEvent : Type := mkFsEvent {
  is_directory : bool;
  src_path : Path;
}.

(** [ConversationFileHandler]: its own dictionaries.  The session store it
    refers to is the one shared with the other components and is threaded
    next to it.  Readings of [time.time()] are in milliseconds. *)
Record ConversationFileHandler : Type := mkHandler {
  parsers : gmap string ConversationParser;
  debounce_times : gmap Path Z;
}.

Definition new_handler : ConversationFileHandler :=
  {| parsers := ∅; debounce_times := ∅ |}.

(** [self.debounce_delay], 0.1 s. *)
Definition debounce_delay : Z := 100.

(** [session.conversation.clear()] on the session object of the store. *)
Definition clear_conversation (sid : string) (store : SessionStore) : SessionStore :=
  match get_session sid store with
  | Some session =>
      {| sessions := <[sid := set_conversation [] session]> (sessions store);
         _pending_tool_cache := _pending_tool_cache store |}
  | None => store
  end.

(** [for message in new_messages: self.session_store.add_message(...)]:
    the i-th call makes the i-th reading of the clock. *)
Fixpoint add_messages (clk : Clock) (sid : string) (messages : list Dict)
    (store : SessionStore) : SessionStore :=
  match messages with
  | [] => store
  | message :: rest =>
      add_messages (fun i => clk (S i)) sid rest (add_message clk sid message store)
  end.

(** How a callback ends: normally, or by an exception that leaves it. *)
Inductive Outcome : Type :=
| Returned
| Raised.

Section Handler.

Variable json_loads : string → option Dict.

(** [ConversationFileHandler.on_modified], with the file system [fs] as it
    is during the call and [now] the reading of [time.time()]. *)
Definition on_modified (fs : FileSystem) (now : Z) (clk : Clock)
    (event : FileSystemEvent) (self : ConversationFileHandler)
    (store : SessionStore)
    : ConversationFileHandler * SessionStore * Outcome :=
  if is_directory event then (self, store, Returned)
  else
    let path := src_path event in
    if negb (String.eqb (path_name path) "conversation.jsonl")
    then (self, store, Returned)
    else
      let last_time := default 0 (debounce_times self !! src_path event) in
      if now - last_time <? debounce_delay then (self, store, Returned)
      else
        let debounce := <[src_path event := now]> (debounce_times self) in
        let sid := path_name (path_parent path) in
        let parser :=
          default (new_parser (path_parent path)) (parsers self !! sid) in
        let '(new_messages, parser) := parse_incremental json_loads fs parser in
        match detect_clear_command new_messages with
        | None =>
            ({| parsers := <[sid := parser]> (parsers self);
                debounce_times := debounce |}, store, Raised)
        | Some clear =>
            let parser := if clear then reset parser else parser in
            let store := if clear then clear_conversation sid store else store in
            ({| parsers := <[sid := parser]> (parsers self);
                debounce_times := debounce |},
             add_messages clk sid new_messages store, Returned)
        end.

(** [ConversationFileHandler.on_created] *)
Definition on_created (fs : FileSystem) (clk : Clock)
    (event : FileSystemEvent) (self : ConversationFileHandler)
    (store : SessionStore) : ConversationFileHandler * SessionStore :=
  if is_directory event then (self, store)
  else
    let path := src_path event in
    if String.eqb (path_name path) "conversation.jsonl" then
      let sid := path_name (path_parent path) in
      let '(messages, parser) :=
        parse_full json_loads fs (new_parser (path_parent path)) in
      ({| parsers := <[sid := parser]> (parsers self);
          debounce_times := debounce_times self |},
       add_messages clk sid messages store)
    else (self, store).

(** [FileMonitor._scan_existing_sessions] over the entries that
    [sessions_dir.iterdir()] yields, each with the answer of [is_dir()];
    [clks i] is the clock of the calls made for the i-th entry. *)
Fixpoint _scan_existing_sessions (fs : FileSystem) (clks : nat → Clock)
    (entries : list (Path * bool)) (self : ConversationFileHandler)
    (store : SessionStore) : ConversationFileHandler * SessionStore :=
  match entries with
  | [] => (self, store)
  | (session_dir, is_dir) :: rest =>
      let clks' := fun i => clks (S i) in
      if negb is_dir then _scan_existing_sessions fs clks' rest self store
      else
        match fs !! (session_dir ++ ["conversation.jsonl"])%list with
        | None => _scan_existing_sessions fs clks' rest self store
        | Some _ =>
            let sid := path_name session_dir in
            let '(messages, parser) :=
              parse_full json_loads fs (new_parser session_dir) in
            _scan_existing_sessions fs clks' rest
              {| parsers := <[sid := parser]> (parsers self);
                 debounce_times := debounce_times self |}
              (add_messages (clks 0%nat) sid messages store)
        end
  end.

End Handler.

End file_monitor.

(** ** socket_server.py *)

Module socket_server.
Import state_manager.

(** A response dictionary, before [json.dumps]. *)
Definition Frame : Type := list (string * string).

(** [{"status": "waiting_for_approval"}] *)
Definition waiting_frame : Frame := [("status", "waiting_for_approval")].

(** The response built by [send_approval_response]. *)
Definition decision_frame (decision : string) : Frame :=
  [("decision", decision); ("reason", "User decision from frontend")].

(** What the service does to the [StreamWriter] of one connection, in
    order. *)
Inductive WriterOp : Type :=
| Write (frame : Frame)
| Close.

(** A connection is named by a number; its writer is the log of the
    operations applied to it. *)
Definition Conn : Type := nat.

(** [HookSocketServer]: the shared session store, [pending_approvals]
    (session id to writer), and the writers of the connections accepted so
    far. *)
Record HookSocketServer : Type := mkServer {
  session_store : SessionStore;
  pending_approvals : gmap string Conn;
  writers : gmap Conn (list WriterOp);
}.

Definition new_server (store : SessionStore) : HookSocketServer :=
  {| session_store := store; pending_approvals := ∅; writers := ∅ |}.

(** [writer.write(...)] / [writer.close()] on the writer of [c]. *)
Definition writer_do (c : Conn) (op : WriterOp) (self : HookSocketServer)
    : HookSocketServer :=
  {| session_store := session_store self;
     pending_approvals := pending_approvals self;
     writers := <[c := (default [] (writers self !! c) ++ [op])%list]> (writers self) |}.

(** What [reader.read(65536)] and [json.loads] yield for a connection. *)
Inductive ClientData : Type :=
| NoData
| InvalidJson
| Decoded (event : Event).

(** [HookSocketServer.process_event] *)
Definition process_event (clk : Clock) (event : Event) (writer : Conn)
    (self : HookSocketServer) : option Frame * HookSocketServer :=
  let store := state_manager.process_event clk event (session_store self) in
  if type_is event "PermissionRequest" then
    let pending :=
      if falsy (ev_session_id event) then pending_approvals self
      else <[default "" (ev_session_id event) := writer]> (pending_approvals self) in
    (Some waiting_frame,
     {| session_store := store; pending_approvals := pending;
        writers := writers self |})
  else
    (None,
     {| session_store := store; pending_approvals := pending_approvals self;
        writers := writers self |}).

(** The [try] block of [handle_client], up to [await writer.drain()]. *)
Definition handle_client_try (clk : Clock) (data : ClientData) (writer : Conn)
    (self : HookSocketServer) : HookSocketServer :=
  let self :=
    {| session_store := session_store self;
       pending_approvals := pending_approvals self;
       writers := <[writer := default [] (writers self !! writer)]> (writers self) |} in
  match data with
  | NoData => self
  | InvalidJson => self
  | Decoded event =>
      let '(response, self) := process_event clk event writer self in
      match response with
      | Some frame => writer_do writer (Write frame) self
      | None => self
      end
  end.

(** The [finally] block of [handle_client]. *)
Definition handle_client_finally (writer : Conn) (self : HookSocketServer)
    : HookSocketServer :=
  writer_do writer Close self.

(** [HookSocketServer.handle_client] *)
Definition handle_client (clk : Clock) (data : ClientData) (writer : Conn)
    (self : HookSocketServer) : HookSocketServer :=
  handle_client_finally writer (handle_client_try clk data writer self).

(** [HookSocketServer.send_approval_response] *)
Definition send_approval_response (sid : string) (decision : string)
    (self : HookSocketServer) : HookSocketServer :=
  match pending_approvals self !! sid with
  | None => self
  | Some writer =>
      let self := writer_do writer (Write (decision_frame decision)) self in
      {| session_store := clear_approval sid (session_store self);
         pending_approvals := delete sid (pending_approvals self);
         writers := writers self |}
  end.

End socket_server.

(** ** dbus_service.py *)

Module dbus_service.
Import state_manager.

(** A [GLib.Variant] of one of the types the service builds: ["s"],
    ["i"], ["b"], ["as"]. *)
Inductive Variant : Type :=
| VString (s : string)
| VInt32 (n : Z)
| VBoolean (b : bool)
| VStringArray (items : list string).


Section Convert.

(** Python's [str(value)] on a decoded JSON value. *)
Variable py_str : Json → string.

(** [GLib.Variant("i", n)]: [None] for the [OverflowError] outside the
    32-bit range. *)
Definition int32 (n : Z) : option Variant :=
  if (-2147483648 <=? n) && (n <=? 2147483647) then Some (VInt32 n) else None.

(** The [isinstance] chain of [_convert_to_variant_dict] on one value.  A
    [bool] is an [int] in Python, so the [int] branch takes it. *)
Definition convert_value (value : Json) : option Variant :=
  match value with
  | JStr s => Some (VString s)
  | JNum n => int32 n
  | JBool b => int32 (if b then 1 else 0)
  | JArr items => Some (VStringArray (map py_str items))
  | _ => Some (VString (py_str value))
  end.

(** [ClaudeIslandDBusService._convert_to_variant_dict]; [None] when it
    raises ([data] is not a dictionary, or an integer is out of range).
    The result is in the order of the keys of [data]. *)
Definition _convert_to_variant_dict (data : Json) : option (list (string * Variant)) :=
  match data with
  | JObj fields => mapM (fun kv => pair kv.1 <$> convert_value kv.2) fields
  | _ => None
  end.


End Convert.

End dbus_service.

(** ** hook_installer.py *)

Module hook_installer.

(** [d[key] = value]: the binding is replaced where it stands, or added
    at the end. *)
Fixpoint dict_set (key : string) (value : Json) (d : Dict) : Dict :=
  match d with
  | [] => [(key, value)]
  | (k, v) :: rest =>
      if String.eqb k key then (k, value) :: rest
      else (k, v) :: dict_set key value rest
  end.

(** [key in d] *)
Definition dict_has (key : string) (d : Dict) : bool :=
  match dict_get key d with
  | Some _ => true
  | None => false
  end.

(** [for x in value]: the items of a list, the keys of a dictionary, the
    characters of a string; [None] for the [TypeError] on the rest. *)
Definition iterate (value : Json) : option (list Json) :=
  match value with
  | JArr items => Some items
  | JObj fields => Some (map (fun kv => JStr kv.1) fields)
  | JStr s => Some (map (fun c => JStr (String c EmptyString)) (list_ascii_of_string s))
  | _ => None
  end.

(** [value == text], for [value] the result of a [get]. *)
Definition equals_str (value : option Json) (text : string) : bool :=
  match value with
  | Some (JStr s) => String.eqb s text
  | _ => false
  end.

(** The inner loop of [_hook_exists]; [None] for the [AttributeError] of
    [hook.get] on a value that is not a dictionary. *)
Fixpoint any_hook (hook_path : string) (hooks : list Json) : option bool :=
  match hooks with
  | [] => Some false
  | JObj hook :: rest =>
      if equals_str (dict_get "command" hook) hook_path then Some true
      else any_hook hook_path rest
  | _ :: _ => None
  end.

(** [HookInstaller._hook_exists] over the entries that iterating
    [hook_list] yields. *)
Fixpoint _hook_exists (hook_list : list Json) (hook_path : string) : option bool :=
  match hook_list with
  | [] => Some false
  | JObj entry :: rest =>
      match iterate (default (JArr []) (dict_get "hooks" entry))
              ≫= any_hook hook_path with
      | Some true => Some true
      | Some false => _hook_exists rest hook_path
      | None => None
      end
  | _ :: _ => None
  end.

(** [hooks_to_register], with the timeout of each hook type. *)
Definition hooks_to_register : list (string * Z) :=
  [("UserPromptSubmit", 10000); ("PreToolUse", 10000); ("PostToolUse", 10000);
   ("PermissionRequest", 300000); ("Notification", 10000); ("Stop", 10000);
   ("SubagentStop", 10000); ("SessionStart", 10000); ("SessionEnd", 10000);
   ("PreCompact", 10000)].

(** The entry appended for one hook type:
    [{"matcher": ".*", "hooks": [hook_config]}]. *)
Definition hook_entry (hook_path : string) (timeout : Z) : Json :=
  JObj [("matcher", JStr ".*");
        ("hooks", JArr [JObj [("type", JStr "command");
                              ("command", JStr hook_path);
                              ("timeout", JNum timeout)]])].

(** One turn of the loop of [_update_settings] on [settings["hooks"]];
    [None] when it raises. *)
Definition register_one (hook_path : string) (hooks : Dict) (hook : string * Z)
    : option Dict :=
  let hooks := if dict_has hook.1 hooks then hooks
               else dict_set hook.1 (JArr []) hooks in
  registered ← dict_get hook.1 hooks;
  match iterate registered ≫= (fun entries => _hook_exists entries hook_path) with
  | Some true => Some hooks
  | Some false =>
      match registered with
      | JArr items =>
          Some (dict_set hook.1
                  (JArr (items ++ [hook_entry hook_path hook.2])%list) hooks)
      | _ => None
      end
  | None => None
  end.

Fixpoint register_all (hook_path : string) (hooks : Dict)
    (to_register : list (string * Z)) : option Dict :=
  match to_register with
  | [] => Some hooks
  | hook :: rest =>
      hooks ← register_one hook_path hooks hook;
      register_all hook_path hooks rest
  end.

(** [HookInstaller._update_settings]: from the decoded settings file
    ([None] when there is none) to the settings written back; [None] when
    the method raises, which is before it opens the file for writing. *)
Definition _update_settings (hook_path : string) (existing : option Json)
    : option Json :=
  match default (JObj []) existing with
  | JObj settings =>
      let settings := if dict_has "hooks" settings then settings
                      else dict_set "hooks" (JObj []) settings in
      match dict_get "hooks" settings with
      | Some (JObj hooks) =>
          hooks ← register_all hook_path hooks hooks_to_register;
          Some (JObj (dict_set "hooks" (JObj hooks) settings))
      | _ => None
      end
  | _ => None
  end.

(** The settings file of the assistant: absent, not JSON, or holding a
    decoded value. *)
Inductive SettingsFile : Type :=
| NoFile
| Undecodable
| Holds (settings : Json).

(** What the installer sees and changes under the home directory: the
    hook script in the hooks directory, if any, and the settings file. *)
Record Home : Type := mkHome {
  hook_script : option string;
  settings_file : SettingsFile;
}.

(** [HookInstaller.is_installed] *)
Definition is_installed (home : Home) : bool :=
  match hook_script home with
  | Some _ => true
  | None => false
  end.

(** [HookInstaller.install], with the script under [resources] when it is
    there: the script is copied first, the settings are updated after. *)
Definition install (hook_path : string) (resource : option string) (home : Home)
    : Home * file_monitor.Outcome :=
  match resource with
  | None => (home, file_monitor.Raised)
  | Some script =>
      let home := {| hook_script := Some script;
                     settings_file := settings_file home |} in
      let updated :=
        match settings_file home with
        | NoFile => _update_settings hook_path None
        | Undecodable => None
        | Holds settings => _update_settings hook_path (Some settings)
        end in
      match updated with
      | Some settings =>
          ({| hook_script := hook_script home; settings_file := Holds settings |},
           file_monitor.Returned)
      | None => (home, file_monitor.Raised)
      end
  end.

(** [HookInstaller.uninstall]: the settings are left as they are. *)
Definition uninstall (home : Home) : Home :=
  {| hook_script := None; settings_file := settings_file home |}.

(** The installation step of the service's [main]: the home directory
    afterwards, and whether the service goes on ([sys.exit(1)] when the
    installation raises). *)
Definition install_on_first_run (hook_path : string) (resource : option string)
    (home : Home) : Home * bool :=
  if is_installed home then (home, true)
  else
    match install hook_path resource home with
    | (home, file_monitor.Returned) => (home, true)
    | (home, file_monitor.Raised) => (home, false)
    end.

End hook_installer.

(** ** resources/claude-island-state.py *)

Module hook_script.

(** The exceptions that [send_event] tells apart: [socket.timeout],
    [FileNotFoundError], and any other, with its text. *)
Inductive Failure : Type :=
| Timeout
| NotFound
| Other (message : string).

(** What the exchange with the backend comes to: an exception raised by
    [connect], [sendall], [recv] or [json.loads], or its completion, with
    the decoded bytes that [recv] returned ([None] when it returned
    none). *)
Inductive Exchange : Type :=
| Fails (failure : Failure)
| Completes (received : option Json).

(** [{"decision": "deny", "reason": reason}] *)
Definition deny (reason : string) : Json :=
  JObj [("decision", JStr "deny"); ("reason", JStr reason)].

(** [event.get("type") == "PermissionRequest"] *)
Definition is_permission_request (event : Dict) : bool :=
  match dict_get "type" event with
  | Some (JStr t) => String.eqb t "PermissionRequest"
  | _ => false
  end.

(** [send_event]: [recv] is called for a PermissionRequest only. *)
Definition send_event (event : Dict) (exchange : Exchange) : option Json :=
  match exchange with
  | Fails Timeout => Some (deny "Timeout")
  | Fails NotFound => Some (deny "Backend not running")
  | Fails (Other message) => Some (deny message)
  | Completes received =>
      if is_permission_request event then received else None
  end.

(** The truth value of a decoded JSON value in a condition. *)
Definition truthy (value : Json) : bool :=
  match value with
  | JNull => false
  | JBool b => b
  | JNum n => negb (n =? 0)
  | JStr s => negb (String.eqb s "")
  | JArr items => match items with [] => false | _ => true end
  | JObj fields => match fields with [] => false | _ => true end
  end.

(** What standard input decodes to: a JSON object, or anything else
    (text that is not JSON, or JSON that is not an object). *)
Inductive Stdin : Type :=
| NotAnEvent
| EventRead (event : Dict).

(** [main]: the JSON value printed on standard output, if any, and the
    exit status.  [has_tty] is the answer of [detect_tty]. *)
Definition main (input : Stdin) (has_tty : bool) (exchange : Exchange)
    : option Json * Z :=
  match input with
  | NotAnEvent => (None, 1)
  | EventRead event =>
      let event := hook_installer.dict_set "has_tty" (JBool has_tty) event in
      let response := send_event event exchange in
      if is_permission_request event then
        match response with
        | Some r =>
            if truthy r then (Some r, 0)
            else (Some (deny "No response from backend"), 0)
        | None => (Some (deny "No response from backend"), 0)
        end
      else (None, 0)
  end.

End hook_script.

(** ** Runs of the service *)

Import state_manager.

(** The ways the session store is mutated: a hook event
    ([SessionStore.process_event], from the socket server), a log record
    ([SessionStore.add_message], from the file monitor), the clearing of an
    approval ([SessionStore.clear_approval], after a frontend decision), and
    the emptying of a conversation (the file monitor, on [/clear]). *)
Inductive StoreOp : Type :=
| OpEvent (clk : Clock) (event : Event)
| OpMessage (clk : Clock) (sid : string) (message : Dict)
| OpClearApproval (sid : string)
| OpClearConversation (sid : string).

Definition apply_op (op : StoreOp) (st : SessionStore) : SessionStore :=
  match op with
  | OpEvent clk event => process_event clk event st
  | OpMessage clk sid message => add_message clk sid message st
  | OpClearApproval sid => clear_approval sid st
  | OpClearConversation sid => file_monitor.clear_conversation sid st
  end.

(** The operations applied in order, first to last. *)
Definition run (ops : list StoreOp) (st : SessionStore) : SessionStore :=
  fold_left (fun st op => apply_op op st) ops st.

(** The store after a sequence of hook events, each with its own clock. *)
Definition run_events (evs : list (Clock * Event)) (st : SessionStore)
    : SessionStore :=
  run (map (fun ce => OpEvent ce.1 ce.2) evs) st.


(** An event kind that no branch of [process_event] handles. *)
Definition unrecognized (event : Event) : bool :=
  negb (type_is event "SessionStart" || type_is event "SessionEnd"
        || type_is event "UserPromptSubmit" || type_is event "PreToolUse"
        || type_is event "PostToolUse" || type_is event "PermissionRequest"
        || type_is event "Notification" || type_is event "Stop"
        || type_is event "SubagentStop").

(** The PostToolUse event names the session's active tool. *)
Definition matches_active (event : Event) (s : Session) : bool :=
  match active_tool s with
  | Some t => String.eqb (name t) (event_tool_name event)
  | None => false
  end.

(** Two sessions that differ at most in [updated_at]. *)
Definition same_but_updated_at (a b : Session) : Prop :=
  set_updated_at 0 a = set_updated_at 0 b.

(** Two stores with the same sessions, each differing at most in
    [updated_at], and the same cache. *)
Definition stores_agree (st1 st2 : SessionStore) : Prop :=
  _pending_tool_cache st1 = _pending_tool_cache st2 ∧
  ∀ sid, option_Forall2 same_but_updated_at
           (sessions st1 !! sid) (sessions st2 !! sid).

(** A tool, an approval request and a session with the clock readings
    taken out: [start_time], [end_time] (when set), [timestamp],
    [created_at] and [updated_at]. *)
Definition untimed_tool (t : Tool) : Tool :=
  {| name := name t; status := status t; start_time := 0;
     end_time := (λ _, 0) <$> end_time t; result := result t;
     parameters := parameters t |}.

Definition untimed_approval (a : ApprovalRequest) : ApprovalRequest :=
  {| ap_tool_name := ap_tool_name a; ap_parameters := ap_parameters a;
     ap_timestamp := 0 |}.

Definition untimed_session (s : Session) : Session :=
  {| session_id := session_id s; phase := phase s;
     active_tool := untimed_tool <$> active_tool s;
     pending_approval := untimed_approval <$> pending_approval s;
     tools := untimed_tool <$> tools s;
     conversation := conversation s;
     created_at := 0; updated_at := 0 |}.

(** Hook events used in the scenarios. *)
Definition hook (kind sid : string) : Event :=
  {| ev_type := Some kind; ev_session_id := Some sid; ev_tool_name := None;
     ev_parameters := None; ev_result := None |}.

Definition tool_hook (kind sid tool : string) (params res : option Json) : Event :=
  {| ev_type := Some kind; ev_session_id := Some sid; ev_tool_name := Some tool;
     ev_parameters := params; ev_result := res |}.

(** The phase of a session of the store, when it exists. *)
Definition phase_of (sid : string) (st : SessionStore) : option SessionPhase :=
  phase <$> sessions st !! sid.

(** What can happen at the hook endpoint and around it.  The [try] block
    of [handle_client] runs without suspension up to [writer.drain()], and
    the [finally] block runs later; frontend decisions and file-monitor
    callbacks may come in between. *)
Inductive Label : Type :=
| LAccept (clk : Clock) (data : socket_server.ClientData) (c : socket_server.Conn)
| LFinally (c : socket_server.Conn)
| LDecision (sid decision : string)
| LMessage (clk : Clock) (sid : string) (message : Dict)
| LClearConversation (sid : string).

Definition with_store (f : SessionStore → SessionStore)
    (srv : socket_server.HookSocketServer) : socket_server.HookSocketServer :=
  {| socket_server.session_store := f (socket_server.session_store srv);
     socket_server.pending_approvals := socket_server.pending_approvals srv;
     socket_server.writers := socket_server.writers srv |}.

Definition server_step (l : Label) (srv : socket_server.HookSocketServer)
    : socket_server.HookSocketServer :=
  match l with
  | LAccept clk data c => socket_server.handle_client_try clk data c srv
  | LFinally c => socket_server.handle_client_finally c srv
  | LDecision sid decision => socket_server.send_approval_response sid decision srv
  | LMessage clk sid message => with_store (add_message clk sid message) srv
  | LClearConversation sid => with_store (file_monitor.clear_conversation sid) srv
  end.

(** A connection is accepted once, and its [finally] block runs once,
    after its [try] block. *)
Definition enabled (l : Label) (srv : socket_server.HookSocketServer) : Prop :=
  match l with
  | LAccept _ _ c => socket_server.writers srv !! c = None
  | LFinally c =>
      ∃ log, socket_server.writers srv !! c = Some log ∧ socket_server.Close ∉ log
  | _ => True
  end.

Inductive trace : socket_server.HookSocketServer → list Label →
                  socket_server.HookSocketServer → Prop :=
| trace_nil srv : trace srv [] srv
| trace_cons srv l ls srv' :
    enabled l srv → trace (server_step l srv) ls srv' → trace srv (l :: ls) srv'.

(** The states of the server from its start. *)
Definition reachable (srv : socket_server.HookSocketServer) : Prop :=
  ∃ ls, trace (socket_server.new_server empty_store) ls srv.

(** The label is a frontend decision for the session. *)
Definition decides (sid : string) (l : Label) : Prop :=
  match l with
  | LDecision sid' _ => sid' = sid
  | _ => False
  end.

(** The frames written on a writer, in order. *)
Definition written (log : list socket_server.WriterOp) : list socket_server.Frame :=
  omap (fun op => match op with
                  | socket_server.Write f => Some f
                  | socket_server.Close => None
                  end) log.

(** [{"decision":"deny","reason":"timeout"}] *)
Definition timeout_frame : socket_server.Frame :=
  [("decision", "deny"); ("reason", "timeout")].

(** [{"decision":"deny","reason":"superseded"}] *)
Definition superseded_frame : socket_server.Frame :=
  [("decision", "deny"); ("reason", "superseded")].

(** The frames the server builds: the acknowledgement, or a frontend
    decision. *)
Definition server_frame (f : socket_server.Frame) : Prop :=
  f = socket_server.waiting_frame ∨ ∃ d, f = socket_server.decision_frame d.

(** Every frame written so far is one the server builds. *)
Definition frames_ok (srv : socket_server.HookSocketServer) : Prop :=
  ∀ c log, socket_server.writers srv !! c = Some log →
           Forall server_frame (written log).

(** Every writer kept in [pending_approvals] is the writer of an accepted
    connection. *)
Definition pending_registered (srv : socket_server.HookSocketServer) : Prop :=
  ∀ sid c, socket_server.pending_approvals srv !! sid = Some c →
           is_Some (socket_server.writers srv !! c).

(** The store holds the session, with an approval pending. *)
Definition has_pending (sid : string) (st : SessionStore) : Prop :=
  ∃ s, sessions st !! sid = Some s ∧ is_Some (pending_approval s).

(** The connection [c] is the one on which the PermissionRequest of
    session [sid] came: only the acknowledgement has been written on it, no
    other session's entry of [pending_approvals] refers to it, and the
    approval of the session is still pending. *)
Definition held (c : socket_server.Conn) (sid : string)
    (srv : socket_server.HookSocketServer) : Prop :=
  (∃ log, socket_server.writers srv !! c = Some log ∧
          written log = [socket_server.waiting_frame]) ∧
  (∀ sid', socket_server.pending_approvals srv !! sid' = Some c → sid' = sid) ∧
  has_pending sid (socket_server.session_store srv).

(** A PermissionRequest of a session, as received by the hook endpoint. *)
Definition permission_request (sid tool : string) (params : Json)
    : socket_server.ClientData :=
  socket_server.Decoded (tool_hook "PermissionRequest" sid tool (Some params) None).

(** How many times the frame has been written on the writer. *)
Definition occurrences (f : socket_server.Frame)
    (log : list socket_server.WriterOp) : nat :=
  length (filter (fun g => g = f) (written log)).

(** The record is a user message whose text, stripped, starts with
    [/clear]. *)
Definition is_clear_message (message : Dict) : bool :=
  conversation_parser.is_user message &&
  match default (JStr "") (dict_get "content" message) with
  | JStr content => String.prefix "/clear" (conversation_parser.strip content)
  | _ => false
  end.

(** The record is not a user message, or its content is absent or a
    string. *)
Definition content_is_text (message : Dict) : bool :=
  negb (conversation_parser.is_user message) ||
  match default (JStr "") (dict_get "content" message) with
  | JStr _ => true
  | _ => false
  end.

(** The ["decision"] of a printed response, when it has one. *)
Definition decision_of (response : Json) : option Json :=
  match response with
  | JObj fields => dict_get "decision" fields
  | _ => None
  end.

(** A frame as the JSON value that [json.dumps] encodes. *)
Definition frame_json (f : socket_server.Frame) : Json :=
  JObj (map (fun kv => (kv.1, JStr kv.2)) f).

(** The frames written on a writer before it was closed. *)
Fixpoint delivered (log : list socket_server.WriterOp) : list socket_server.Frame :=
  match log with
  | [] => []
  | socket_server.Write f :: rest => f :: delivered rest
  | socket_server.Close :: _ => []
  end.

(** ** Log text used in the scenarios *)

(** The text with every apostrophe turned into a double quote. *)
Fixpoint q (s : string) : string :=
  match s with
  | EmptyString => EmptyString
  | String c rest =>
      String (if Ascii.eqb c "'"%char then "034"%char else c) (q rest)
  end.

(** [s] without the prefix [p], when it starts with it. *)
Fixpoint strip_prefix (p s : string) : option string :=
  match p, s with
  | EmptyString, _ => Some s
  | String a p', String b s' => if Ascii.eqb a b then strip_prefix p' s' else None
  | String _ _, EmptyString => None
  end.

(** The characters up to the next double quote, and the text after it;
    [None] when a backslash or a control character comes first, or no
    double quote follows. *)
Fixpoint plain_until_quote (s : string) : option (string * string) :=
  match s with
  | EmptyString => None
  | String c rest =>
      if Ascii.eqb c "034"%char then Some (EmptyString, rest)
      else if Ascii.eqb c "\"%char || (nat_of_ascii c <? 32)%nat then None
      else '(w, rest') ← plain_until_quote rest; Some (String c w, rest')
  end.

(** [json.loads] restricted to the lines
    [{"type":"T","content":"C"}] with [T] and [C] free of escapes:
    on such a line it gives the dictionary [json.loads] gives; every other
    line is refused. *)
Definition demo_loads (line : string) : option Dict :=
  s ← strip_prefix (q "{'type':'") line;
  '(t, s) ← plain_until_quote s;
  s ← strip_prefix (q ",'content':'") s;
  '(c, s) ← plain_until_quote s;
  if String.eqb s "}" then Some [("type", JStr t); ("content", JStr c)] else None.

(** A log line [{"type":"T","content":"C"}] and the record it decodes to. *)
Definition line_of (t c : string) : string :=
  q "{'type':'" +:+ t +:+ q "','content':'" +:+ c +:+ q "'}".

Definition record_of (t c : string) : Dict :=
  [("type", JStr t); ("content", JStr c)].

(** The text of the lines, each followed by a line feed. *)
Fixpoint unlines (ls : list string) : string :=
  match ls with
  | [] => EmptyString
  | l :: rest => l +:+ String "010"%char (unlines rest)
  end.

(** No character of the text is a line terminator. *)
Fixpoint no_newline (s : string) : bool :=
  match s with
  | EmptyString => true
  | String c rest => negb (conversation_parser.is_newline c) && no_newline rest
  end.

Example demo_loads_line :
  demo_loads (line_of "user" "/clear") = Some (record_of "user" "/clear").
Proof. reflexivity. Qed.

(** [demo_loads] extended to the line [{"type":"user","content":null}]. *)
Definition demo_loads_null (line : string) : option Dict :=
  if String.eqb line (q "{'type':'user','content':null}")
  then Some [("type", JStr "user"); ("content", JNull)]
  else demo_loads line.

(** The log of session [s1] and the events of the watcher on it. *)
Definition demo_file : conversation_parser.Path :=
  ["sessions"; "s1"; "conversation.jsonl"].

Definition demo_fs (content : string) : conversation_parser.FileSystem :=
  {[ demo_file := content ]}.

Definition modified (p : conversation_parser.Path) : file_monitor.FileSystemEvent :=
  {| file_monitor.is_directory := false; file_monitor.src_path := p |}.

(** Three records, then [/clear] and two records, then one more. *)
Definition seed_text : string :=
  unlines [line_of "user" "one"; line_of "assistant" "two"; line_of "user" "three"].

Definition clear_text : string :=
  unlines [line_of "user" "/clear"; line_of "user" "four";
           line_of "assistant" "five"].

Definition later_text : string := unlines [line_of "user" "six"].

(** One poll of the watcher on the log of [s1]: the handler and the store
    after [on_modified], with the log holding [content] at time [now]. *)
Definition poll (content : string) (now : Z)
    (hs : file_monitor.ConversationFileHandler * SessionStore)
    : file_monitor.ConversationFileHandler * SessionStore :=
  (file_monitor.on_modified demo_loads (demo_fs content) now (fun _ => now)
     (modified demo_file) hs.1 hs.2).1.

(** [get_conversation]: the conversation of the session, empty when the
    session is unknown. *)
Definition conversation_of (sid : string) (st : SessionStore) : list Dict :=
  from_option conversation [] (get_session sid st).

(** * Properties *)

(** ** The session store *)

Section StoreLemmas.

Implicit Types (st : SessionStore) (e : Event) (s : Session) (clk : Clock).

Lemma falsy_false (o : option string) :
  falsy o = false ↔ ∃ sid, o = Some sid ∧ sid ≠ "".
Proof.
  destruct o as [sid|]; simpl.
  - destruct (String.eqb_spec sid ""); split; try done.
    + intros (? & [= <-] & ?). done.
    + eauto.
  - split; [done | intros (? & ? & ?); done].
Qed.

Lemma falsy_some sid : sid ≠ "" → falsy (Some sid) = false.
Proof. intros. apply falsy_false. eauto. Qed.

Lemma process_event_dropped clk e st :
  falsy (ev_session_id e) = true → process_event clk e st = st.
Proof. unfold process_event. by intros ->. Qed.

(** The store after an event that names a session: the session of the
    event is replaced by what the handler returns, the others stay. *)
Lemma process_event_named clk e st sid :
  ev_session_id e = Some sid → sid ≠ "" →
  process_event clk e st =
    let sk := ensure_session clk sid st in
    let r := dispatch (clk (S sk.2)) e (_pending_tool_cache st)
                      (set_updated_at (clk sk.2) sk.1) in
    {| sessions := <[sid := r.1]> (sessions st); _pending_tool_cache := r.2 |}.
Proof.
  intros Hsid Hne. unfold process_event.
  rewrite Hsid, (falsy_some _ Hne). simpl.
  destruct (ensure_session clk sid st) as [s k]. simpl.
  by destruct (dispatch _ _ _ _).
Qed.

Lemma ensure_session_present clk sid st s :
  sessions st !! sid = Some s → ensure_session clk sid st = (s, 0%nat).
Proof. unfold ensure_session. by intros ->. Qed.

Lemma ensure_session_absent clk sid st :
  sessions st !! sid = None →
  ensure_session clk sid st = (new_session sid (clk 0%nat) (clk 1%nat), 2%nat).
Proof. unfold ensure_session. by intros ->. Qed.

End StoreLemmas.

(** C9. Happy-path tool call: for a session that has no completed tool
    yet (a new session, or one the store holds, in whatever phase),
    SessionStart, UserPromptSubmit, PreToolUse(Read, params) and
    PostToolUse(Read, result) applied in order give the phases idle,
    processing, running_tool, idle; afterwards [tools] holds exactly the
    completed Read tool, with its end time set, and [active_tool] is None. *)
Theorem happy_path_tool_call (st : SessionStore) (A : string)
    (c1 c2 c3 c4 : Clock) (params res : option Json) :
  A ≠ "" → (∀ s, sessions st !! A = Some s → tools s = []) →
  let st1 := process_event c1 (hook "SessionStart" A) st in
  let st2 := process_event c2 (hook "UserPromptSubmit" A) st1 in
  let st3 := process_event c3 (tool_hook "PreToolUse" A "Read" params None) st2 in
  let st4 := process_event c4 (tool_hook "PostToolUse" A "Read" None res) st3 in
  phase_of A st1 = Some IDLE ∧
  phase_of A st2 = Some PROCESSING ∧
  phase_of A st3 = Some RUNNING_TOOL ∧
  phase_of A st4 = Some IDLE ∧
  ∃ s, sessions st4 !! A = Some s ∧
       active_tool s = None ∧
       length (tools s) = 1%nat ∧
       tools s = [ {| name := "Read"; status := "success";
                      start_time := c3 1%nat; end_time := Some (c4 1%nat);
                      result := res; parameters := params |} ].
Proof.
  intros Hne Hnone st1 st2 st3 st4.
  assert (Hempty : tools (ensure_session c1 A st).1 = []).
  { unfold ensure_session. destruct (sessions st !! A) as [s|] eqn:Hs; [|done].
    by apply Hnone. }
  set (s0 := (ensure_session c1 A st).1) in *.
  set (k := (ensure_session c1 A st).2).
  assert (H1 : sessions st1 !! A = Some (set_phase IDLE (set_updated_at (c1 k) s0))).
  { subst st1 s0 k. rewrite (process_event_named _ _ _ A) by done.
    simpl. by rewrite lookup_insert_eq. }
  assert (H2 : sessions st2 !! A =
               Some (set_phase PROCESSING (set_updated_at (c2 0%nat)
                       (set_phase IDLE (set_updated_at (c1 k) s0))))).
  { subst st2. rewrite (process_event_named _ _ _ A) by done.
    rewrite (ensure_session_present _ _ _ _ H1). simpl.
    by rewrite lookup_insert_eq. }
  assert (H3 : ∃ s3, sessions st3 !! A = Some s3 ∧ phase s3 = RUNNING_TOOL ∧
               tools s3 = [] ∧
               active_tool s3 = Some {| name := "Read"; status := "running";
                      start_time := c3 1%nat; end_time := None;
                      result := None; parameters := params |}).
  { subst st3. rewrite (process_event_named _ _ _ A) by done.
    rewrite (ensure_session_present _ _ _ _ H2). simpl.
    rewrite lookup_insert_eq. eexists. split; [done|]. done. }
  destruct H3 as (s3 & H3 & Hp3 & Ht3 & Ha3).
  assert (H4 : ∃ s4, sessions st4 !! A = Some s4 ∧ phase s4 = IDLE ∧
               active_tool s4 = None ∧
               tools s4 = [ {| name := "Read"; status := "success";
                      start_time := c3 1%nat; end_time := Some (c4 1%nat);
                      result := res; parameters := params |} ]).
  { subst st4. rewrite (process_event_named _ _ _ A) by done.
    rewrite (ensure_session_present _ _ _ _ H3).
    cbn -[insert]. unfold _handle_post_tool_use. cbn -[insert].
    rewrite Ha3. cbn -[insert]. rewrite lookup_insert_eq.
    eexists. split; [done|]. cbn. rewrite Ht3. done. }
  destruct H4 as (s4 & H4 & Hp4 & Ha4 & Ht4).
  unfold phase_of. rewrite H1, H2, H3, H4. simpl. rewrite Hp3, Hp4.
  repeat split; try done.
  exists s4. rewrite Ht4. done.
Qed.

(** The happy path for session [A] after the session has ended: the
    SessionStart brings it back from completed to idle. *)
Lemma happy_path_tool_call_witness :
  let c : Clock := fun i => Z.of_nat i in
  let params := Some (JObj [("file", JStr "/x")]) in
  let res := Some (JObj [("ok", JBool true)]) in
  let st := run_events [(c, hook "SessionEnd" "A")] empty_store in
  let st1 := process_event c (hook "SessionStart" "A") st in
  let st4 := run_events [(c, hook "SessionStart" "A");
                         (c, hook "UserPromptSubmit" "A");
                         (c, tool_hook "PreToolUse" "A" "Read" params None);
                         (c, tool_hook "PostToolUse" "A" "Read" None res)]
                        st in
  phase_of "A" st = Some COMPLETED ∧
  phase_of "A" st1 = Some IDLE ∧
  phase_of "A" st4 = Some IDLE ∧
  ∃ s, sessions st4 !! "A" = Some s ∧ active_tool s = None ∧
       length (tools s) = 1%nat.
Proof.
  intros c params res st st1 st4.
  assert (Hnone : ∀ s, sessions st !! "A" = Some s → tools s = []).
  { intros s Hs. vm_compute in Hs. injection Hs as <-. reflexivity. }
  destruct (happy_path_tool_call st "A" c c c c params res
              ltac:(discriminate) Hnone)
    as (H1 & _ & _ & H4 & s & Hs & Ha & Hl & _).
  split; [reflexivity|]. split; [exact H1|]. split; [exact H4|].
  exists s. split; [exact Hs|]. split; [exact Ha | exact Hl].
Defined.

Section StoreInvariants.

Implicit Types (st : SessionStore) (e : Event) (s : Session) (clk : Clock).

Lemma type_is_true e kind : type_is e kind = true → ev_type e = Some kind.
Proof.
  unfold type_is. destruct (ev_type e) as [t|]; [|done].
  by intros ->%String.eqb_eq.
Qed.

Lemma dispatch_unrecognized now e cache s :
  unrecognized e = true → dispatch now e cache s = (s, cache).
Proof.
  unfold unrecognized. intros H%negb_true_iff.
  repeat (apply orb_false_iff in H as [H ?]).
  unfold dispatch.
  repeat match goal with Heq : type_is e _ = false |- _ => rewrite Heq; clear Heq end.
  reflexivity.
Qed.

Lemma run_app ops1 ops2 st : run (ops1 ++ ops2) st = run ops2 (run ops1 st).
Proof. unfold run. apply fold_left_app. Qed.

Lemma run_snoc ops op st : run (ops ++ [op]) st = apply_op op (run ops st).
Proof. by rewrite run_app. Qed.

(** A property of sessions that every mutation of a session keeps holds
    of every session of every store reached. *)
Lemma store_invariant (P : Session → Prop) :
  (∀ sid t1 t2, P (new_session sid t1 t2)) →
  (∀ s t, P s → P (set_updated_at t s)) →
  (∀ now e cache s, P s → P (dispatch now e cache s).1) →
  (∀ s m, P s → P (set_conversation (conversation s ++ [m]) s)) →
  (∀ s, P s → P (set_phase IDLE (set_pending_approval None s))) →
  (∀ s, P s → P (set_conversation [] s)) →
  ∀ ops st,
    (∀ sid s, sessions st !! sid = Some s → P s) →
    ∀ sid s, sessions (run ops st) !! sid = Some s → P s.
Proof.
  intros Hnew Hupd Hdis Hmsg Hclr Hconv ops.
  induction ops as [|op ops IH] using rev_ind; intros st Hst sid s; [by apply Hst|].
  rewrite run_snoc. specialize (IH st Hst). revert IH.
  generalize (run ops st). clear st Hst. intros st IH.
  destruct op as [clk e|clk sid' m|sid'|sid']; simpl.
  - destruct (falsy (ev_session_id e)) eqn:Hf.
    { rewrite process_event_dropped by done. apply IH. }
    apply falsy_false in Hf as (sid' & Hsid & Hne).
    rewrite (process_event_named _ _ _ sid') by done. simpl.
    destruct (decide (sid' = sid)) as [->|Hdiff].
    + rewrite lookup_insert_eq. intros [= <-]. apply Hdis, Hupd.
      unfold ensure_session. destruct (sessions st !! sid) eqn:Hl; simpl; eauto.
    + rewrite lookup_insert_ne by done. apply IH.
  - unfold add_message. destruct (sessions st !! sid') as [s'|] eqn:Hl; [|apply IH].
    simpl. destruct (decide (sid' = sid)) as [->|Hdiff].
    + rewrite lookup_insert_eq. intros [= <-]. apply Hupd, Hmsg. eauto.
    + rewrite lookup_insert_ne by done. apply IH.
  - unfold clear_approval. destruct (sessions st !! sid') as [s'|] eqn:Hl; [|apply IH].
    simpl. destruct (decide (sid' = sid)) as [->|Hdiff].
    + rewrite lookup_insert_eq. intros [= <-]. apply Hclr. eauto.
    + rewrite lookup_insert_ne by done. apply IH.
  - unfold file_monitor.clear_conversation, get_session.
    destruct (sessions st !! sid') as [s'|] eqn:Hl; [|apply IH].
    simpl. destruct (decide (sid' = sid)) as [->|Hdiff].
    + rewrite lookup_insert_eq. intros [= <-]. apply Hconv. eauto.
    + rewrite lookup_insert_ne by done. apply IH.
Qed.

(** The shape of what a handler returns, branch by branch. *)
Lemma dispatch_cases now e cache s :
  let s' := (dispatch now e cache s).1 in
  s' = s ∨ s' = set_phase IDLE s ∨ s' = set_phase COMPLETED s ∨
  s' = set_phase PROCESSING s ∨
  s' = (_handle_pre_tool_use now e cache s).1 ∨
  s' = (_handle_post_tool_use now e cache s).1 ∨
  s' = _handle_permission_request now e s ∨
  s' = _handle_stop s.
Proof.
  unfold dispatch.
  repeat match goal with
         | |- context [if ?b then _ else _] => destruct b
         end; simpl; tauto.
Qed.

(** One direction of the coherence of phase and approval holds on every
    run: a session in waiting_approval has a pending approval. *)
Lemma waiting_approval_has_pending ops sid s :
  sessions (run ops empty_store) !! sid = Some s →
  phase s = WAITING_APPROVAL → is_Some (pending_approval s).
Proof.
  revert sid s.
  apply (store_invariant
           (fun s => phase s = WAITING_APPROVAL → is_Some (pending_approval s)));
    try done.
  intros now e cache s Hs.
  destruct (dispatch_cases now e cache s)
    as [-> | [-> | [-> | [-> | [-> | [-> | [-> | ->]]]]]]]; done.
Qed.

(** Every record of [tools] has status "success", on every run. *)
Lemma completed_tools_success ops sid s :
  sessions (run ops empty_store) !! sid = Some s →
  Forall (fun t => status t = "success") (tools s).
Proof.
  revert sid s.
  apply (store_invariant (fun s => Forall (fun t => status t = "success") (tools s)));
    try done.
  intros now e cache s Hs.
  destruct (dispatch_cases now e cache s)
    as [-> | [-> | [-> | [-> | [-> | [-> | [-> | ->]]]]]]]; try done.
  unfold _handle_post_tool_use. simpl.
  destruct (active_tool s) as [t|]; [|done].
  destruct (String.eqb _ _); [|done].
  simpl. apply Forall_app. split; [done|]. by constructor.
Qed.

End StoreInvariants.

(** C10. On every store reached by a run, a PostToolUse event whose tool
    name is the name of the session's active tool appends to [tools] the
    active tool with status "success", whatever the event's result payload
    is (the payload is only stored in the record); every record of [tools]
    has status "success", so none has status "error". *)
Theorem post_tool_use_status_success (ops : list StoreOp) (clk : Clock)
    (e : Event) (sid : string) (s : Session) (t : Tool) :
  ev_session_id e = Some sid → sid ≠ "" →
  type_is e "PostToolUse" = true →
  sessions (run ops empty_store) !! sid = Some s →
  active_tool s = Some t →
  name t = event_tool_name e →
  ∃ s', sessions (process_event clk e (run ops empty_store)) !! sid = Some s' ∧
        tools s' = (tools s ++
                    [ {| name := name t; status := "success";
                         start_time := start_time t;
                         end_time := Some (clk 1%nat);
                         result := ev_result e;
                         parameters := parameters t |} ])%list ∧
        active_tool s' = None ∧
        Forall (fun t' => status t' = "success" ∧ status t' ≠ "error") (tools s').
Proof.
  intros Hsid Hne Hty Hs Hact Hname.
  assert (Hlk : sessions (process_event clk e (run ops empty_store)) !! sid =
                Some (_handle_post_tool_use (clk 1%nat) e
                        (_pending_tool_cache (run ops empty_store))
                        (set_updated_at (clk 0%nat) s)).1).
  { rewrite (process_event_named _ _ _ sid) by done.
    rewrite (ensure_session_present _ _ _ _ Hs). simpl.
    rewrite lookup_insert_eq. f_equal.
    apply type_is_true in Hty. unfold dispatch, type_is. rewrite Hty. done. }
  eexists. split; [exact Hlk|].
  assert (Htools : ∀ s', sessions (process_event clk e (run ops empty_store)) !! sid
                         = Some s' →
                         Forall (fun t' => status t' = "success") (tools s')).
  { intros s' Hs'. apply (completed_tools_success (ops ++ [OpEvent clk e]) sid).
    by rewrite run_snoc. }
  specialize (Htools _ Hlk). revert Htools.
  unfold _handle_post_tool_use. simpl. rewrite Hact, Hname, String.eqb_refl. simpl.
  intros Htools. repeat split; try done.
  eapply Forall_impl; [exact Htools|]. intros t' Ht'. simpl in Ht'.
  split; [done|]. rewrite Ht'. done.
Qed.

(** A PostToolUse whose result reports an error still completes the tool
    with status "success". *)
Lemma post_tool_use_status_success_witness :
  let c : Clock := fun i => Z.of_nat i in
  let ops := [OpEvent c (tool_hook "PreToolUse" "A" "Read" None None)] in
  let e := tool_hook "PostToolUse" "A" "Read" None
             (Some (JObj [("error", JStr "permission denied")])) in
  ∃ s', sessions (process_event c e (run ops empty_store)) !! "A" = Some s' ∧
        Forall (fun t' => status t' = "success" ∧ status t' ≠ "error") (tools s').
Proof.
  intros c ops e.
  destruct (post_tool_use_status_success ops c e "A"
              {| session_id := "A"; phase := RUNNING_TOOL;
                 active_tool := Some {| name := "Read"; status := "running";
                                        start_time := 3; end_time := None;
                                        result := None; parameters := None |};
                 pending_approval := None; tools := []; conversation := [];
                 created_at := 0; updated_at := 2 |}
              {| name := "Read"; status := "running"; start_time := 3;
                 end_time := None; result := None; parameters := None |})
    as (s' & Hs' & _ & _ & Hall); try reflexivity; try done.
  exists s'. split; [exact Hs' | exact Hall].
Defined.

(** C6 as stated fails: a PostToolUse that matches no active tool still
    moves the phase to idle. *)
Lemma unmatched_post_tool_use_changes_phase :
  let c : Clock := fun _ => 0 in
  let st := run_events [(c, hook "UserPromptSubmit" "A")] empty_store in
  let e := tool_hook "PostToolUse" "A" "Read" None (Some (JObj [])) in
  (∃ s, sessions st !! "A" = Some s ∧ matches_active e s = false) ∧
  phase_of "A" st = Some PROCESSING ∧
  phase_of "A" (process_event c e st) = Some IDLE.
Proof.
  intros c st e. split; [|split]; [|reflexivity|reflexivity].
  eexists. split; [reflexivity|reflexivity].
Qed.

(** C6, amended. A PostToolUse event whose tool name is not the name of
    the session's active tool (or that finds no active tool) leaves
    [active_tool], [tools], [pending_approval], [conversation],
    [session_id] and [created_at] of the session as they were, and so
    [tools] does not grow; it sets the phase to idle and refreshes
    [updated_at].  Every other session is untouched. *)
Theorem unmatched_post_tool_use (clk : Clock) (e : Event) (st : SessionStore)
    (sid : string) (s : Session) :
  ev_session_id e = Some sid → sid ≠ "" →
  type_is e "PostToolUse" = true →
  sessions st !! sid = Some s →
  matches_active e s = false →
  ∃ s', sessions (process_event clk e st) !! sid = Some s' ∧
        active_tool s' = active_tool s ∧
        tools s' = tools s ∧
        pending_approval s' = pending_approval s ∧
        conversation s' = conversation s ∧
        session_id s' = session_id s ∧
        created_at s' = created_at s ∧
        phase s' = IDLE ∧
        updated_at s' = clk 0%nat ∧
        ∀ sid', sid' ≠ sid →
                sessions (process_event clk e st) !! sid' = sessions st !! sid'.
Proof.
  intros Hsid Hne Hty Hs Hun.
  rewrite (process_event_named _ _ _ sid) by done.
  rewrite (ensure_session_present _ _ _ _ Hs). simpl.
  apply type_is_true in Hty.
  assert (Hd : ∀ now cache s0, dispatch now e cache s0 =
                               _handle_post_tool_use now e cache s0).
  { intros. unfold dispatch, type_is. rewrite Hty. done. }
  rewrite Hd. rewrite lookup_insert_eq. eexists. split; [done|].
  unfold _handle_post_tool_use, matches_active in *. simpl.
  destruct (active_tool s) as [t|] eqn:Hact.
  - rewrite Hun. simpl. repeat split; try done.
    intros sid' Hdiff. by rewrite lookup_insert_ne.
  - simpl. repeat split; try done.
    intros sid' Hdiff. by rewrite lookup_insert_ne.
Qed.

(** A PostToolUse of Read while Write is active: Write stays active, [tools]
    stays empty, the phase is idle. *)
Lemma unmatched_post_tool_use_witness :
  let c : Clock := fun i => Z.of_nat i in
  let st := run_events [(c, tool_hook "PreToolUse" "A" "Write" None None)]
              empty_store in
  let e := tool_hook "PostToolUse" "A" "Read" None (Some (JObj [])) in
  ∃ s', sessions (process_event c e st) !! "A" = Some s' ∧
        tools s' = [] ∧ phase s' = IDLE ∧
        (name <$> active_tool s') = Some "Write".
Proof.
  intros c st e.
  destruct (unmatched_post_tool_use c e st "A"
              {| session_id := "A"; phase := RUNNING_TOOL;
                 active_tool := Some {| name := "Write"; status := "running";
                                        start_time := 3; end_time := None;
                                        result := None; parameters := None |};
                 pending_approval := None; tools := []; conversation := [];
                 created_at := 0; updated_at := 2 |})
    as (s' & Hs' & Ha & Ht & _ & _ & _ & _ & Hp & _); try reflexivity; try done.
  exists s'. split; [exact Hs'|]. split; [exact Ht|]. split; [exact Hp|].
  rewrite Ha. reflexivity.
Defined.

Section Agreement.

Implicit Types (st : SessionStore) (s : Session).

Lemma same_but_updated_at_refl s : same_but_updated_at s s.
Proof. done. Qed.

Lemma same_but_updated_at_set t s : same_but_updated_at (set_updated_at t s) s.
Proof. done. Qed.

Lemma same_but_updated_at_fields a b :
  same_but_updated_at a b →
  session_id a = session_id b ∧ phase a = phase b ∧
  active_tool a = active_tool b ∧ pending_approval a = pending_approval b ∧
  tools a = tools b ∧ conversation a = conversation b ∧
  created_at a = created_at b.
Proof.
  destruct a, b. unfold same_but_updated_at, set_updated_at. simpl.
  intros [= -> -> -> -> -> -> ->]. done.
Qed.

Lemma same_but_updated_at_touch t a b :
  same_but_updated_at a b → set_updated_at t a = set_updated_at t b.
Proof.
  intros (? & ? & ? & ? & ? & ? & ?)%same_but_updated_at_fields.
  unfold set_updated_at. congruence.
Qed.

Lemma stores_agree_refl st : stores_agree st st.
Proof.
  split; [done|]. intros sid. destruct (sessions st !! sid); by constructor.
Qed.

(** Each store operation maps stores that agree to stores that agree. *)
Lemma apply_op_agree op st1 st2 :
  stores_agree st1 st2 → stores_agree (apply_op op st1) (apply_op op st2).
Proof.
  intros [Hc Hs]. destruct op as [clk e|clk sid m|sid|sid]; simpl.
  - destruct (falsy (ev_session_id e)) eqn:Hf.
    { rewrite !process_event_dropped by done. by split. }
    apply falsy_false in Hf as (sid & Hsid & Hne).
    rewrite !(process_event_named _ _ _ sid) by done.
    assert (He : ensure_session clk sid st1 = ensure_session clk sid st2 ∨
                 ∃ a b, same_but_updated_at a b ∧
                        ensure_session clk sid st1 = (a, 0%nat) ∧
                        ensure_session clk sid st2 = (b, 0%nat)).
    { unfold ensure_session. specialize (Hs sid).
      destruct Hs as [a b Hab|]; [right; eauto | by left]. }
    assert (Hk : (ensure_session clk sid st1).2 = (ensure_session clk sid st2).2).
    { destruct He as [->|(a & b & _ & -> & ->)]; done. }
    assert (Hu : set_updated_at (clk (ensure_session clk sid st1).2)
                                (ensure_session clk sid st1).1 =
                 set_updated_at (clk (ensure_session clk sid st2).2)
                                (ensure_session clk sid st2).1).
    { destruct He as [->|(a & b & Hab & -> & ->)]; [done|].
      simpl. by apply same_but_updated_at_touch. }
    cbv zeta. rewrite Hu, Hk, Hc.
    split; [done|]. intros sid'. simpl.
    destruct (decide (sid = sid')) as [->|Hdiff].
    + rewrite !lookup_insert_eq. by constructor.
    + rewrite !lookup_insert_ne by done. apply Hs.
  - unfold add_message. pose proof (Hs sid) as Hsid.
    destruct Hsid as [a b Hab|]; simpl; [|by split].
    split; [done|]. intros sid'. simpl.
    destruct (decide (sid = sid')) as [->|Hdiff].
    + rewrite !lookup_insert_eq. constructor.
      apply same_but_updated_at_fields in Hab as (? & ? & ? & ? & ? & ? & ?).
      unfold same_but_updated_at, set_updated_at, set_conversation. simpl. congruence.
    + rewrite !lookup_insert_ne by done. apply Hs.
  - unfold clear_approval. pose proof (Hs sid) as Hsid.
    destruct Hsid as [a b Hab|]; simpl; [|by split].
    split; [done|]. intros sid'. simpl.
    destruct (decide (sid = sid')) as [->|Hdiff].
    + rewrite !lookup_insert_eq. constructor.
      apply same_but_updated_at_fields in Hab as (? & ? & ? & ? & ? & ? & ?).
      unfold same_but_updated_at, set_updated_at, set_phase, set_pending_approval.
      simpl. congruence.
    + rewrite !lookup_insert_ne by done. apply Hs.
  - unfold file_monitor.clear_conversation, get_session. pose proof (Hs sid) as Hsid.
    destruct Hsid as [a b Hab|]; simpl; [|by split].
    split; [done|]. intros sid'. simpl.
    destruct (decide (sid = sid')) as [->|Hdiff].
    + rewrite !lookup_insert_eq. constructor.
      apply same_but_updated_at_fields in Hab as (? & ? & ? & ? & ? & ? & ?).
      unfold same_but_updated_at, set_updated_at, set_conversation. simpl. congruence.
    + rewrite !lookup_insert_ne by done. apply Hs.
Qed.

Lemma run_agree ops st1 st2 :
  stores_agree st1 st2 → stores_agree (run ops st1) (run ops st2).
Proof.
  revert st1 st2. induction ops as [|op ops IH]; intros st1 st2 H; [done|].
  simpl. apply IH. by apply apply_op_agree.
Qed.

(** An event of unrecognized kind that names a session the store holds
    changes nothing but the [updated_at] of that session. *)
Lemma unrecognized_event_touch clk e st sid s :
  unrecognized e = true →
  ev_session_id e = Some sid → sid ≠ "" →
  sessions st !! sid = Some s →
  process_event clk e st =
    {| sessions := <[sid := set_updated_at (clk 0%nat) s]> (sessions st);
       _pending_tool_cache := _pending_tool_cache st |}.
Proof.
  intros Hun Hsid Hne Hs.
  rewrite (process_event_named _ _ _ sid) by done.
  rewrite (ensure_session_present _ _ _ _ Hs). simpl.
  by rewrite dispatch_unrecognized.
Qed.

(** A session, once in the store, stays in the store. *)
Lemma apply_op_keeps_sessions op st sid :
  is_Some (sessions st !! sid) → is_Some (sessions (apply_op op st) !! sid).
Proof.
  intros Hs. destruct op as [clk e|clk sid' m|sid'|sid']; simpl.
  - destruct (falsy (ev_session_id e)) eqn:Hf.
    { by rewrite process_event_dropped. }
    apply falsy_false in Hf as (sid' & Hsid & Hne).
    rewrite (process_event_named _ _ _ sid') by done. simpl.
    rewrite lookup_insert. case_decide; [eauto | done].
  - unfold add_message. destruct (sessions st !! sid'); [|done]. simpl.
    rewrite lookup_insert. case_decide; [eauto | done].
  - unfold clear_approval. destruct (sessions st !! sid'); [|done]. simpl.
    rewrite lookup_insert. case_decide; [eauto | done].
  - unfold file_monitor.clear_conversation, get_session.
    destruct (sessions st !! sid'); [|done]. simpl.
    rewrite lookup_insert. case_decide; [eauto | done].
Qed.

Lemma run_keeps_sessions ops st sid :
  is_Some (sessions st !! sid) → is_Some (sessions (run ops st) !! sid).
Proof.
  revert st. induction ops as [|op ops IH]; intros st Hs; [done|].
  simpl. by apply IH, apply_op_keeps_sessions.
Qed.

End Agreement.

(** C7 as stated fails: an event of an unrecognized kind that names a
    session the store does not hold creates that session. *)
Lemma unrecognized_event_creates_session :
  let c : Clock := fun _ => 0 in
  let e := hook "PreCompact" "A" in
  unrecognized e = true ∧
  sessions (run_events ([] ++ [] : list (Clock * Event)) empty_store) !! "A" = None ∧
  sessions (run_events ([] ++ (c, e) :: []) empty_store) !! "A" =
    Some (new_session "A" 0 0).
Proof. intros c e. split; [reflexivity|]. split; reflexivity. Qed.

(** C7, amended. Let an event of an unrecognized kind be inserted at any
    position of a sequence of store operations.  If the event has no
    session id, or names a session that exists at that position, the final
    stores hold the same sessions with the same fields, [updated_at] apart,
    and the same cache; without a session id the final stores are equal.
    If the event names a session that the store does not hold at that
    position, the event creates the session: in phase idle, with no active
    tool, no pending approval, no tools and no messages; it leaves the other
    sessions and the cache as they are, and the session is still in the
    store when the whole sequence has been applied. *)
Theorem unrecognized_event_insertion (ops1 ops2 : list StoreOp) (clk : Clock)
    (e : Event) (st : SessionStore) :
  unrecognized e = true →
  ((falsy (ev_session_id e) = true ∨
    ∃ sid, ev_session_id e = Some sid ∧ is_Some (sessions (run ops1 st) !! sid)) →
   stores_agree (run (ops1 ++ OpEvent clk e :: ops2) st) (run (ops1 ++ ops2) st)) ∧
  (falsy (ev_session_id e) = true →
   run (ops1 ++ OpEvent clk e :: ops2) st = run (ops1 ++ ops2) st) ∧
  (∀ sid, ev_session_id e = Some sid → sid ≠ "" →
     sessions (run ops1 st) !! sid = None →
     sessions (run (ops1 ++ [OpEvent clk e]) st) =
       <[sid := {| session_id := sid; phase := IDLE; active_tool := None;
                   pending_approval := None; tools := []; conversation := [];
                   created_at := clk 0%nat; updated_at := clk 2%nat |}]>
         (sessions (run ops1 st)) ∧
     _pending_tool_cache (run (ops1 ++ [OpEvent clk e]) st) =
       _pending_tool_cache (run ops1 st) ∧
     is_Some (sessions (run (ops1 ++ OpEvent clk e :: ops2) st) !! sid)).
Proof.
  intros Hun. rewrite !run_app. simpl.
  split; [|split].
  - intros Hcase.
    apply run_agree. destruct Hcase as [Hf|(sid & Hsid & [s Hs])].
    { rewrite process_event_dropped by done. apply stores_agree_refl. }
    destruct (falsy (ev_session_id e)) eqn:Hf.
    { rewrite process_event_dropped by done. apply stores_agree_refl. }
    apply falsy_false in Hf as (sid' & Hsid' & Hne).
    assert (sid' = sid) as -> by congruence.
    rewrite (unrecognized_event_touch _ _ _ sid s) by done.
    split; [done|]. intros sid'. simpl.
    destruct (decide (sid = sid')) as [->|Hdiff].
    + rewrite lookup_insert_eq, Hs. constructor. apply same_but_updated_at_set.
    + rewrite lookup_insert_ne by done.
      destruct (sessions (run ops1 st) !! sid'); by constructor.
  - intros Hf. by rewrite process_event_dropped.
  - intros sid Hsid Hne Hnone.
    assert (Hstep : process_event clk e (run ops1 st) =
              {| sessions := <[sid := {| session_id := sid; phase := IDLE;
                     active_tool := None; pending_approval := None;
                     tools := []; conversation := [];
                     created_at := clk 0%nat; updated_at := clk 2%nat |}]>
                   (sessions (run ops1 st));
                 _pending_tool_cache := _pending_tool_cache (run ops1 st) |}).
    { rewrite (process_event_named _ _ _ sid) by done.
      rewrite ensure_session_absent by done. cbn -[insert].
      by rewrite dispatch_unrecognized. }
    rewrite Hstep. split; [done|]. split; [done|].
    apply run_keeps_sessions. simpl. rewrite lookup_insert_eq. eauto.
Qed.

(** A PreCompact event between SessionStart and UserPromptSubmit of
    session [A]: naming [A] it changes nothing but [updated_at]; naming the
    unknown session [B] it creates [B] in phase idle. *)
Lemma unrecognized_event_insertion_witness :
  let c : Clock := fun i => Z.of_nat i in
  let ops1 := [OpEvent c (hook "SessionStart" "A")] in
  let ops2 := [OpEvent c (hook "UserPromptSubmit" "A")] in
  stores_agree
    (run (ops1 ++ OpEvent c (hook "PreCompact" "A") :: ops2) empty_store)
    (run (ops1 ++ ops2) empty_store) ∧
  sessions (run ops1 empty_store) !! "B" = None ∧
  phase_of "B" (run (ops1 ++ [OpEvent c (hook "PreCompact" "B")]) empty_store)
    = Some IDLE ∧
  is_Some (sessions
    (run (ops1 ++ OpEvent c (hook "PreCompact" "B") :: ops2) empty_store) !! "B").
Proof.
  intros c ops1 ops2.
  split; [|split; [reflexivity|]].
  - apply (proj1 (unrecognized_event_insertion ops1 ops2 c (hook "PreCompact" "A")
                    empty_store eq_refl)).
    right. exists "A". split; [reflexivity|]. eexists. reflexivity.
  - destruct (proj2 (proj2 (unrecognized_event_insertion ops1 ops2 c
                              (hook "PreCompact" "B") empty_store eq_refl))
                "B" eq_refl ltac:(discriminate) eq_refl) as (Hs & _ & Hk).
    split; [|exact Hk].
    unfold phase_of. rewrite Hs, lookup_insert_eq. reflexivity.
Defined.

Section Creation.

Implicit Types (st : SessionStore) (s : Session).

(** No handler changes the identity, the conversation or the creation
    time of the session. *)
Lemma dispatch_keeps_identity now e cache s :
  let s' := (dispatch now e cache s).1 in
  session_id s' = session_id s ∧ conversation s' = conversation s ∧
  created_at s' = created_at s.
Proof.
  destruct (dispatch_cases now e cache s)
    as [-> | [-> | [-> | [-> | [-> | [-> | [-> | ->]]]]]]]; try done.
  unfold _handle_post_tool_use. simpl.
  destruct (active_tool s) as [t|]; [|done].
  by destruct (String.eqb _ _).
Qed.

End Creation.

(** C5 as stated fails: a log record for a session the store does not
    hold is discarded, and no session is created. *)
Lemma message_for_unknown_session_discarded :
  let c : Clock := fun _ => 0 in
  let st := add_message c "A" (record_of "user" "Hello") empty_store in
  st = empty_store ∧ sessions st !! "A" = None.
Proof. intros c st. split; reflexivity. Qed.

(** C5, amended. A session record comes into existence on the first hook
    event that names its session id (a non-empty string): the event
    creates the session, with an empty conversation.  A log record for a
    session id the store does not hold is discarded by [add_message] and
    creates nothing.  No operation removes a session from the store. *)
Theorem sessions_created_by_hook_events (clk : Clock) (e : Event)
    (message : Dict) (sid : string) (st : SessionStore) (ops : list StoreOp) :
  ev_session_id e = Some sid → sid ≠ "" →
  sessions st !! sid = None →
  (∃ s, sessions (process_event clk e st) !! sid = Some s ∧
        session_id s = sid ∧ conversation s = [] ∧ created_at s = clk 0%nat) ∧
  add_message clk sid message st = st ∧
  (∀ sid', is_Some (sessions st !! sid') →
           is_Some (sessions (run ops st) !! sid')).
Proof.
  intros Hsid Hne Hnone. split; [|split].
  - rewrite (process_event_named _ _ _ sid) by done.
    rewrite ensure_session_absent by done. simpl.
    rewrite lookup_insert_eq. eexists. split; [done|].
    apply dispatch_keeps_identity.
  - unfold add_message. by rewrite Hnone.
  - intros sid'. apply run_keeps_sessions.
Qed.

(** A Notification creates session [B]; a log record for [B] before that is
    discarded. *)
Lemma sessions_created_by_hook_events_witness :
  let c : Clock := fun i => Z.of_nat i in
  (∃ s, sessions (process_event c (hook "Notification" "B") empty_store) !! "B"
        = Some s ∧ session_id s = "B" ∧ conversation s = [] ∧ created_at s = 0) ∧
  add_message c "B" (record_of "user" "Hello") empty_store = empty_store.
Proof.
  intros c.
  destruct (sessions_created_by_hook_events c (hook "Notification" "B")
              (record_of "user" "Hello") "B" empty_store []
              eq_refl ltac:(discriminate) eq_refl)
    as (H1 & H2 & _).
  split; [exact H1 | exact H2].
Defined.

(** C1 fails on the code: after a PermissionRequest, an event that moves
    the phase (UserPromptSubmit, PostToolUse, SessionEnd) leaves
    [pending_approval] set, so the phase is not waiting_approval while an
    approval is pending. *)
Theorem pending_approval_outlives_waiting_phase :
  let c : Clock := fun i => Z.of_nat i in
  let request :=
    tool_hook "PermissionRequest" "A" "Bash"
              (Some (JObj [("command", JStr "ls -la")])) None in
  let after (e : Event) := run_events [(c, request); (c, e)] empty_store in
  (∃ s, sessions (run_events [(c, request)] empty_store) !! "A" = Some s ∧
        phase s = WAITING_APPROVAL ∧ is_Some (pending_approval s)) ∧
  (∃ s, sessions (after (hook "UserPromptSubmit" "A")) !! "A" = Some s ∧
        phase s = PROCESSING ∧ is_Some (pending_approval s)) ∧
  (∃ s, sessions (after (tool_hook "PostToolUse" "A" "Bash" None None)) !! "A"
        = Some s ∧ phase s = IDLE ∧ is_Some (pending_approval s)) ∧
  (∃ s, sessions (after (hook "SessionEnd" "A")) !! "A" = Some s ∧
        phase s = COMPLETED ∧ is_Some (pending_approval s)).
Proof.
  intros c request after.
  repeat split; eexists; (split; [reflexivity|]); (split; [reflexivity|]); eexists;
    reflexivity.
Qed.

(** ** The log tailer *)

Section Tailer.
Import conversation_parser.

Variable json_loads : string → option Dict.

Lemma append_cons (c : ascii) (a b : string) :
  String c a +:+ b = String c (a +:+ b).
Proof. reflexivity. Qed.

Lemma append_assoc (a b c : string) : (a +:+ b) +:+ c = a +:+ (b +:+ c).
Proof.
  induction a as [|x a IH]; [reflexivity|].
  rewrite !append_cons. by rewrite IH.
Qed.

Lemma text_from_0 (s : string) : text_from 0 s = s.
Proof. by destruct s. Qed.

Lemma text_from_length (pos : nat) (s : string) :
  (pos ≤ String.length s)%nat →
  (pos + String.length (text_from pos s))%nat = String.length s.
Proof.
  revert s. induction pos as [|n IH]; intros s Hle.
  - by rewrite text_from_0.
  - destruct s as [|c s]; simpl in *; [lia|]. rewrite IH; [done | lia].
Qed.

Lemma text_from_append (a b : string) : text_from (String.length a) (a +:+ b) = b.
Proof.
  induction a as [|c a IH]; simpl.
  - apply text_from_0.
  - exact IH.
Qed.

Lemma readlines_line (l rest : string) :
  no_newline l = true →
  readlines (l +:+ String "010"%char rest) = l :: readlines rest.
Proof.
  induction l as [|c l IH]; intros Hl.
  - reflexivity.
  - simpl in Hl. apply andb_true_iff in Hl as [Hc Hl].
    rewrite append_cons. simpl. apply negb_true_iff in Hc. rewrite Hc.
    by rewrite IH.
Qed.

Lemma readlines_unlines (ls : list string) (rest : string) :
  Forall (fun l => no_newline l = true) ls →
  readlines (unlines ls +:+ rest) = (ls ++ readlines rest)%list.
Proof.
  induction 1 as [|l ls Hl _ IH]; [reflexivity|].
  simpl. rewrite append_assoc, append_cons, readlines_line by done.
  by rewrite IH.
Qed.

Lemma readlines_partial (s : string) :
  no_newline s = true → s ≠ "" → readlines s = [s].
Proof.
  induction s as [|c s IH]; intros Hs Hne; [done|].
  simpl in Hs. apply andb_true_iff in Hs as [Hc Hs].
  simpl. apply negb_true_iff in Hc. rewrite Hc.
  destruct s as [|c' s]; [reflexivity|].
  by rewrite IH.
Qed.

Lemma parse_partial (s : string) :
  no_newline s = true →
  omap (parse_line json_loads) (readlines s) = option_list (parse_line json_loads s).
Proof.
  intros Hs. destruct s as [|c s]; [reflexivity|].
  rewrite readlines_partial by done. simpl.
  by destruct (parse_line json_loads (String c s)).
Qed.

End Tailer.

(** C8 as stated fails: a trailing partial line is consumed.  With a log
    that ends in the first twelve characters of a record, the poll moves
    the offset to the end of the file, past the partial line; when the
    line is completed, the next poll reads only its tail, and the record
    is never returned.  A last line that is whole but has no line feed yet
    is parsed and returned at once. *)
Lemma partial_line_is_consumed :
  let first := unlines [line_of "user" "hi"] in
  let whole := line_of "user" "bye" in
  let head := String.substring 0 12 whole in
  let tail := String.substring 12 (String.length whole - 12) whole in
  let p0 := conversation_parser.new_parser ["sessions"; "s1"] in
  let r1 := conversation_parser.parse_incremental demo_loads
              (demo_fs (first +:+ head)) p0 in
  let r2 := conversation_parser.parse_incremental demo_loads
              (demo_fs (first +:+ head +:+ tail +:+ unlines [""])) r1.2 in
  head +:+ tail = whole ∧
  r1.1 = [record_of "user" "hi"] ∧
  conversation_parser.last_position r1.2 = String.length (first +:+ head) ∧
  conversation_parser.last_position r1.2 ≠ String.length first ∧
  r2.1 = [] ∧
  (conversation_parser.parse_incremental demo_loads
     (demo_fs (first +:+ whole)) p0).1 =
    [record_of "user" "hi"; record_of "user" "bye"].
Proof. vm_compute. repeat split; try reflexivity. discriminate. Qed.

(** C8, amended. A poll reads from the stored offset to the end of the
    file, every line and also a trailing partial line (the characters
    after the last line feed): it returns, in file order, the records of
    the non-blank lines that decode, the partial line among them when it
    decodes; the stored offset advances to the end of the file, so the
    next poll reads only what is appended after it. *)
Theorem poll_reads_to_end_of_file (json_loads : string → option Dict)
    (fs : conversation_parser.FileSystem)
    (p : conversation_parser.ConversationParser)
    (content : string) (ls : list string) (partial : string) :
  fs !! conversation_parser.conversation_file p = Some content →
  (conversation_parser.last_position p ≤ String.length content)%nat →
  conversation_parser.text_from (conversation_parser.last_position p) content
    = unlines ls +:+ partial →
  Forall (fun l => no_newline l = true) ls →
  no_newline partial = true →
  let r := conversation_parser.parse_incremental json_loads fs p in
  r.1 = (omap (conversation_parser.parse_line json_loads) ls ++
         option_list (conversation_parser.parse_line json_loads partial))%list ∧
  conversation_parser.last_position r.2 = String.length content ∧
  ∀ more, conversation_parser.text_from (conversation_parser.last_position r.2)
            (content +:+ more) = more.
Proof.
  intros Hfile Hpos Htext Hls Hpartial r. subst r.
  unfold conversation_parser.parse_incremental. rewrite Hfile. simpl.
  rewrite text_from_length by done.
  split; [|split; [done|]].
  - rewrite Htext, readlines_unlines by done.
    rewrite omap_app. f_equal. by apply parse_partial.
  - intros more. apply text_from_append.
Qed.

(** A log whose last line has no line feed yet. *)
Lemma poll_reads_to_end_of_file_witness :
  let content := unlines [line_of "user" "hi"] +:+ line_of "user" "bye" in
  let r := conversation_parser.parse_incremental demo_loads (demo_fs content)
             (conversation_parser.new_parser ["sessions"; "s1"]) in
  r.1 = [record_of "user" "hi"; record_of "user" "bye"] ∧
  conversation_parser.last_position r.2 = String.length content.
Proof.
  intros content r.
  destruct (poll_reads_to_end_of_file demo_loads (demo_fs content)
              (conversation_parser.new_parser ["sessions"; "s1"])
              content [line_of "user" "hi"] (line_of "user" "bye"))
    as (H1 & H2 & _).
  - reflexivity.
  - vm_compute. lia.
  - reflexivity.
  - repeat constructor.
  - reflexivity.
  - split; [exact H1 | exact H2].
Defined.

(** ** The file monitor *)

(** C4 fails on the code.  The log of session [s1] is seeded with three
    records and polled; [/clear] and two records are appended and the log
    is polled again; one more record is appended and the log is polled a
    third time.  After the second poll the conversation holds the [/clear]
    record in front of the two that follow it, and the parser is back at
    offset 0; after the third poll the conversation holds the whole log
    again, the three records from before [/clear] included. *)
Theorem clear_keeps_marker_and_history :
  let start := (file_monitor.new_handler,
                process_event (fun _ => 0) (hook "SessionStart" "s1") empty_store) in
  let p1 := poll seed_text 1000 start in
  let p2 := poll (seed_text +:+ clear_text) 2000 p1 in
  let p3 := poll (seed_text +:+ clear_text +:+ later_text) 3000 p2 in
  conversation_of "s1" p1.2 =
    [record_of "user" "one"; record_of "assistant" "two"; record_of "user" "three"] ∧
  conversation_of "s1" p2.2 =
    [record_of "user" "/clear"; record_of "user" "four";
     record_of "assistant" "five"] ∧
  (conversation_parser.last_position <$> file_monitor.parsers p2.1 !! "s1")
    = Some 0%nat ∧
  conversation_of "s1" p3.2 =
    [record_of "user" "one"; record_of "assistant" "two"; record_of "user" "three";
     record_of "user" "/clear"; record_of "user" "four";
     record_of "assistant" "five"; record_of "user" "six"].
Proof. vm_compute. repeat split; reflexivity. Qed.

(** What [on_modified] leaves in the conversation when the batch holds a
    [/clear]: the whole batch, in order, whatever came before the marker
    inside the batch. *)
Lemma add_messages_conversation (clk : Clock) (sid : string)
    (messages : list Dict) (st : SessionStore) (s : Session) :
  sessions st !! sid = Some s →
  conversation_of sid (file_monitor.add_messages clk sid messages st) =
    (conversation s ++ messages)%list.
Proof.
  revert clk st s. induction messages as [|m ms IH]; intros clk st s Hs.
  - simpl. unfold conversation_of, get_session. rewrite Hs. simpl.
    by rewrite app_nil_r.
  - simpl.
    rewrite (IH _ _ (set_updated_at (clk 0%nat)
                       (set_conversation (conversation s ++ [m]) s))).
    + simpl. by rewrite <- app_assoc.
    + unfold add_message. rewrite Hs. simpl. by rewrite lookup_insert_eq.
Qed.

(** A poll whose batch holds a [/clear] leaves the whole batch as the
    conversation of the session, and the parser at offset 0. *)
Lemma on_modified_clear (json_loads : string → option Dict)
    (fs : conversation_parser.FileSystem) (now : Z) (clk : Clock)
    (ev : file_monitor.FileSystemEvent)
    (h : file_monitor.ConversationFileHandler) (st : SessionStore)
    (sid : string) (s : Session) (batch : list Dict)
    (p' : conversation_parser.ConversationParser) :
  file_monitor.is_directory ev = false →
  conversation_parser.path_name (file_monitor.src_path ev) = "conversation.jsonl" →
  (now - default 0 (file_monitor.debounce_times h !! file_monitor.src_path ev)
     <? file_monitor.debounce_delay) = false →
  sid = conversation_parser.path_name
          (conversation_parser.path_parent (file_monitor.src_path ev)) →
  conversation_parser.parse_incremental json_loads fs
    (default (conversation_parser.new_parser
                (conversation_parser.path_parent (file_monitor.src_path ev)))
             (file_monitor.parsers h !! sid)) = (batch, p') →
  conversation_parser.detect_clear_command batch = Some true →
  sessions st !! sid = Some s →
  let r := file_monitor.on_modified json_loads fs now clk ev h st in
  conversation_of sid r.1.2 = batch ∧
  (conversation_parser.last_position <$> file_monitor.parsers r.1.1 !! sid)
    = Some 0%nat ∧
  r.2 = file_monitor.Returned.
Proof.
  intros Hdir Hname Hdeb -> Hparse Hclear Hs r. subst r.
  unfold file_monitor.on_modified.
  rewrite Hdir, Hname, Hdeb. simpl. rewrite Hparse, Hclear. simpl.
  split; [|split; [|done]].
  - rewrite (add_messages_conversation _ _ _ _ (set_conversation [] s)); [done|].
    unfold file_monitor.clear_conversation, get_session. rewrite Hs. simpl.
    by rewrite lookup_insert_eq.
  - by rewrite lookup_insert_eq.
Qed.

(** ** The hook endpoint *)

Section Server.
Import socket_server.

Implicit Types (srv : HookSocketServer) (c : Conn) (l : Label).

Lemma written_app log1 log2 : written (log1 ++ log2) = (written log1 ++ written log2)%list.
Proof. unfold written. apply omap_app. Qed.

Lemma timeout_frame_not_built : ¬ server_frame timeout_frame.
Proof. intros [H|[d H]]; discriminate. Qed.

Lemma superseded_frame_not_built : ¬ server_frame superseded_frame.
Proof. intros [H|[d H]]; discriminate. Qed.

Lemma writer_do_lookup c op srv c' :
  writers (writer_do c op srv) !! c' =
    if decide (c = c') then Some (default [] (writers srv !! c) ++ [op])%list
    else writers srv !! c'.
Proof. unfold writer_do. simpl. by rewrite lookup_insert. Qed.

Lemma writer_do_frames c op srv :
  frames_ok srv →
  match op with Write f => server_frame f | Close => True end →
  frames_ok (writer_do c op srv).
Proof.
  intros Hok Hop c' log. rewrite writer_do_lookup. case_decide as Hc.
  - intros [= <-]. rewrite written_app. apply Forall_app. split.
    + destruct (writers srv !! c) as [log0|] eqn:Hl; simpl; [by eapply Hok | constructor].
    + destruct op; simpl; [by apply Forall_singleton | constructor].
  - apply Hok.
Qed.

(** The server after the [try] block, by the data received. *)
Lemma handle_client_try_decoded clk e c srv :
  handle_client_try clk (Decoded e) c srv =
    let registered := <[c := default [] (writers srv !! c)]> (writers srv) in
    let store := state_manager.process_event clk e (session_store srv) in
    if type_is e "PermissionRequest" then
      writer_do c (Write waiting_frame)
        {| session_store := store;
           pending_approvals :=
             if falsy (ev_session_id e) then pending_approvals srv
             else <[default "" (ev_session_id e) := c]> (pending_approvals srv);
           writers := registered |}
    else {| session_store := store; pending_approvals := pending_approvals srv;
            writers := registered |}.
Proof.
  unfold handle_client_try, process_event. simpl.
  by destruct (type_is e "PermissionRequest").
Qed.

Lemma register_frames c srv :
  frames_ok srv →
  ∀ c' log, <[c := default [] (writers srv !! c)]> (writers srv) !! c' = Some log →
            Forall server_frame (written log).
Proof.
  intros Hok c' log. rewrite lookup_insert. case_decide as Hc; [|apply Hok].
  intros [= <-]. destruct (writers srv !! c) eqn:Hl; simpl; [by eapply Hok | constructor].
Qed.

Lemma server_step_frames l srv : frames_ok srv → frames_ok (server_step l srv).
Proof.
  intros Hok. destruct l as [clk data c|c|sid d|clk sid m|sid]; simpl.
  - destruct data as [| |e].
    + intros c' log. simpl. by apply register_frames.
    + intros c' log. simpl. by apply register_frames.
    + rewrite handle_client_try_decoded. cbv zeta.
      destruct (type_is e "PermissionRequest").
      * apply writer_do_frames; [|by left].
        intros c' log. simpl. by apply register_frames.
      * intros c' log. simpl. by apply register_frames.
  - by apply writer_do_frames.
  - unfold send_approval_response.
    destruct (pending_approvals srv !! sid) as [w|]; [|done].
    intros c' log. simpl.
    apply (writer_do_frames w (Write (decision_frame d)) srv Hok); right; eauto.
  - done.
  - done.
Qed.

Lemma trace_frames srv ls srv' : trace srv ls srv' → frames_ok srv → frames_ok srv'.
Proof. induction 1; [done|]. intros. by apply IHtrace, server_step_frames. Qed.

Lemma reachable_frames srv : reachable srv → frames_ok srv.
Proof. intros [ls H]. apply (trace_frames _ _ _ H). intros c log. simpl. by rewrite lookup_empty. Qed.

Lemma writer_do_registered c op srv c' :
  is_Some (writers srv !! c') → is_Some (writers (writer_do c op srv) !! c').
Proof. rewrite writer_do_lookup. case_decide; eauto. Qed.

Lemma server_step_registered l srv :
  pending_registered srv → pending_registered (server_step l srv).
Proof.
  intros Hreg. destruct l as [clk data c|c|sid d|clk sid m|sid]; simpl.
  - assert (Hbase : ∀ sid' c', pending_approvals srv !! sid' = Some c' →
              is_Some (<[c := default [] (writers srv !! c)]> (writers srv) !! c')).
    { intros sid' c' H. rewrite lookup_insert. case_decide; eauto. }
    destruct data as [| |e]; [exact Hbase | exact Hbase |].
    rewrite handle_client_try_decoded. cbv zeta.
    destruct (type_is e "PermissionRequest"); [|exact Hbase].
    intros sid' c'. simpl. intros Hp.
    rewrite lookup_insert. case_decide; [eauto|].
    rewrite lookup_insert. case_decide; [eauto|].
    destruct (falsy (ev_session_id e)); [by eapply Hreg|].
    rewrite lookup_insert in Hp. case_decide; [congruence | by eapply Hreg].
  - intros sid' c' H. apply writer_do_registered. by eapply Hreg.
  - unfold send_approval_response.
    destruct (pending_approvals srv !! sid) as [w|] eqn:Hw; [|done].
    intros sid' c'. simpl. rewrite lookup_delete. case_decide; [done|].
    intros Hp. rewrite lookup_insert. case_decide; [eauto | by eapply Hreg].
  - done.
  - done.
Qed.

Lemma reachable_registered srv : reachable srv → pending_registered srv.
Proof.
  intros [ls H].
  assert (Hgen : ∀ a b, trace a ls b → pending_registered a → pending_registered b).
  { clear. induction 1; [done|]. intros. by apply IHtrace, server_step_registered. }
  apply (Hgen _ _ H). intros sid c. simpl. by rewrite lookup_empty.
Qed.

End Server.

Section Held.
Import socket_server.

Implicit Types (srv : HookSocketServer) (c : Conn) (l : Label) (st : SessionStore).

Lemma dispatch_keeps_pending now e cache s :
  is_Some (pending_approval s) →
  is_Some (pending_approval (dispatch now e cache s).1).
Proof.
  intros Hs.
  destruct (dispatch_cases now e cache s)
    as [-> | [-> | [-> | [-> | [-> | [-> | [-> | ->]]]]]]]; try done.
  unfold _handle_post_tool_use. simpl.
  destruct (active_tool s) as [t|]; [|done].
  by destruct (String.eqb _ _).
Qed.

(** Only [clear_approval] of the session itself ends its pending
    approval. *)
Lemma apply_op_keeps_pending op sid st :
  op ≠ OpClearApproval sid →
  has_pending sid st → has_pending sid (apply_op op st).
Proof.
  intros Hop (s & Hs & Hp). unfold has_pending.
  destruct op as [clk e|clk sid' m|sid'|sid']; simpl.
  - destruct (falsy (ev_session_id e)) eqn:Hf.
    { rewrite process_event_dropped by done. eauto. }
    apply falsy_false in Hf as (sid' & Hsid & Hne).
    rewrite (process_event_named _ _ _ sid') by done. simpl.
    destruct (decide (sid' = sid)) as [->|Hdiff].
    + rewrite lookup_insert_eq. eexists. split; [done|].
      apply dispatch_keeps_pending.
      by rewrite (ensure_session_present _ _ _ _ Hs).
    + rewrite lookup_insert_ne by done. eauto.
  - unfold add_message. destruct (sessions st !! sid') as [s'|] eqn:Hl; [|eauto].
    simpl. destruct (decide (sid' = sid)) as [->|Hdiff].
    + rewrite lookup_insert_eq. eexists. split; [done|]. simpl. congruence.
    + rewrite lookup_insert_ne by done. eauto.
  - assert (sid' ≠ sid) by congruence.
    unfold clear_approval. destruct (sessions st !! sid'); [|eauto].
    simpl. rewrite lookup_insert_ne by done. eauto.
  - unfold file_monitor.clear_conversation, get_session.
    destruct (sessions st !! sid') as [s'|] eqn:Hl; [|eauto].
    simpl. destruct (decide (sid' = sid)) as [->|Hdiff].
    + rewrite lookup_insert_eq. eexists. split; [done|]. simpl. congruence.
    + rewrite lookup_insert_ne by done. eauto.
Qed.

(** A PermissionRequest accepted on a fresh connection is held on it. *)
Lemma accept_permission_request clk e c sid srv :
  pending_registered srv →
  writers srv !! c = None →
  type_is e "PermissionRequest" = true →
  ev_session_id e = Some sid → sid ≠ "" →
  let srv1 := handle_client_try clk (Decoded e) c srv in
  held c sid srv1 ∧
  writers srv1 !! c = Some [Write waiting_frame] ∧
  pending_approvals srv1 !! sid = Some c ∧
  phase_of sid (session_store srv1) = Some WAITING_APPROVAL.
Proof.
  intros Hreg Hfresh Hty Hsid Hne srv1. subst srv1.
  rewrite handle_client_try_decoded. cbv zeta.
  rewrite Hty, Hsid, (falsy_some _ Hne). simpl.
  rewrite Hfresh. simpl.
  assert (Hst : ∃ s, sessions (state_manager.process_event clk e (session_store srv))
                      !! sid = Some s ∧
                     phase s = WAITING_APPROVAL ∧ is_Some (pending_approval s)).
  { rewrite (process_event_named _ _ _ sid) by done. simpl.
    rewrite lookup_insert_eq. eexists. split; [done|].
    apply type_is_true in Hty. unfold dispatch, type_is. rewrite Hty. simpl.
    split; [done | eauto]. }
  destruct Hst as (s & Hs & Hph & Hpend).
  split; [split; [|split]|split; [|split]].
  - unfold writer_do. simpl. rewrite lookup_insert_eq. eexists. split; [done|].
    by rewrite lookup_insert_eq.
  - intros sid'. unfold writer_do. simpl. rewrite lookup_insert.
    case_decide; [done|]. intros Hp. apply Hreg in Hp as [? Hp]. congruence.
  - unfold writer_do. simpl. by exists s.
  - unfold writer_do. simpl. rewrite lookup_insert_eq. by rewrite lookup_insert_eq.
  - unfold writer_do. simpl. by rewrite lookup_insert_eq.
  - unfold writer_do, phase_of. simpl. by rewrite Hs, <- Hph.
Qed.

(** Whatever happens short of a frontend decision for the session, the
    connection stays held. *)
Lemma held_step l c sid srv :
  held c sid srv → enabled l srv → ¬ decides sid l →
  held c sid (server_step l srv).
Proof.
  intros ((log & Hlog & Hw) & Honly & Hpend) Hen Hdec.
  destruct l as [clk data c'|c'|sid' d|clk sid' m|sid']; simpl in *.
  - assert (Hc : c' ≠ c) by congruence.
    assert (Hreg_log : <[c' := default [] (writers srv !! c')]> (writers srv) !! c
                       = Some log).
    { by rewrite lookup_insert_ne. }
    destruct data as [| |e]; [by repeat split; eauto .. |].
    rewrite handle_client_try_decoded. cbv zeta.
    assert (Hst : has_pending sid
                    (state_manager.process_event clk e (session_store srv))).
    { by apply (apply_op_keeps_pending (OpEvent clk e)). }
    destruct (type_is e "PermissionRequest"); [|by repeat split; eauto].
    split; [|split]; simpl.
    + exists log. split; [|done]. by rewrite lookup_insert_ne.
    + intros sid''. destruct (falsy (ev_session_id e)); [apply Honly|].
      rewrite lookup_insert. case_decide; [congruence | apply Honly].
    + done.
  - split; [|by split]. simpl. rewrite lookup_insert. case_decide as Hc.
    + subst c'. rewrite Hlog. simpl. eexists. split; [done|].
      by rewrite written_app, Hw.
    + eauto.
  - assert (Hsid : sid' ≠ sid) by (intros ->; by apply Hdec).
    unfold send_approval_response.
    destruct (pending_approvals srv !! sid') as [w|] eqn:Hp; [|by repeat split; eauto].
    assert (Hw' : w ≠ c). { intros ->. by apply Hsid, Honly. }
    split; [|split]; simpl.
    + exists log. split; [|done]. by rewrite lookup_insert_ne.
    + intros sid''. rewrite lookup_delete. case_decide; [done | apply Honly].
    + by apply (apply_op_keeps_pending (OpClearApproval sid')); [congruence|].
  - split; [eauto|split; [done|]]. by apply (apply_op_keeps_pending (OpMessage clk sid' m)).
  - split; [eauto|split; [done|]].
    by apply (apply_op_keeps_pending (OpClearConversation sid')).
Qed.

Lemma held_trace c sid srv ls srv' :
  trace srv ls srv' → Forall (fun l => ¬ decides sid l) ls →
  held c sid srv → held c sid srv'.
Proof.
  induction 1 as [|srv l ls srv' Hen _ IH]; [done|].
  intros [Hl Hls]%Forall_cons Hheld. apply IH; [done|]. by apply held_step.
Qed.

Lemma trace_reachable srv ls srv' : reachable srv → trace srv ls srv' → reachable srv'.
Proof.
  intros [ls0 H0] H. exists (ls0 ++ ls)%list.
  revert H. generalize dependent srv'.
  induction H0 as [srv0|srv0 l ls0 srv1 Hen _ IH]; intros srv' H; [done|].
  simpl. constructor; [done|]. by apply IH.
Qed.

End Held.

Section Approval.
Import socket_server.

Lemma not_built_not_written srv f :
  reachable srv → ¬ server_frame f →
  ∀ c log, writers srv !! c = Some log → f ∉ written log.
Proof.
  intros Hr Hf c log Hlog Hin.
  apply reachable_frames in Hr. specialize (Hr c log Hlog).
  rewrite Forall_forall in Hr. by apply Hf, Hr.
Qed.

Lemma reachable_start : reachable (new_server empty_store).
Proof. exists []. constructor. Qed.

End Approval.

(** C2 as stated fails: after a PermissionRequest of session [B] on
    connection 0, with no frontend decision, the server has written the
    acknowledgement and closed the connection; the session is in
    waiting_approval with its approval pending; and whatever happens
    afterwards, short of a frontend decision for [B], the acknowledgement
    stays the only frame written on the connection and the approval stays
    pending.  No timeout frame is written and the approval is not closed. *)
Lemma no_timeout_frame_is_written :
  let c : Clock := fun i => Z.of_nat i in
  let request := permission_request "B" "Bash" (JObj [("cmd", JStr "ls")]) in
  let srv1 := socket_server.handle_client c request 0%nat
                (socket_server.new_server empty_store) in
  socket_server.writers srv1 !! 0%nat =
    Some [socket_server.Write socket_server.waiting_frame; socket_server.Close] ∧
  phase_of "B" (socket_server.session_store srv1) = Some WAITING_APPROVAL ∧
  ∀ ls srv', trace srv1 ls srv' → Forall (fun l => ¬ decides "B" l) ls →
    (∃ log, socket_server.writers srv' !! 0%nat = Some log ∧
            written log = [socket_server.waiting_frame] ∧
            timeout_frame ∉ written log) ∧
    has_pending "B" (socket_server.session_store srv').
Proof.
  intros c request srv1.
  split; [reflexivity|]. split; [reflexivity|].
  intros ls srv' Htr Hls.
  assert (Hheld : held 0%nat "B" srv1).
  { apply (held_step (LFinally 0%nat)).
    - apply (accept_permission_request c _ 0%nat "B");
        [apply reachable_registered, reachable_start | done ..].
    - simpl. eexists. split; [reflexivity|].
      intros Hin. apply list_elem_of_singleton in Hin. discriminate.
    - simpl. tauto. }
  destruct (held_trace _ _ _ _ _ Htr Hls Hheld) as ((log & Hlog & Hw) & _ & Hpend).
  split; [|done]. exists log. split; [done|]. split; [done|].
  rewrite Hw. intros Hin. apply list_elem_of_singleton in Hin. discriminate.
Qed.

(** C2, amended. For a PermissionRequest received on a connection, the
    session enters waiting_approval and the server writes the
    acknowledgement on the connection.  However long no frontend decision
    for the session arrives, and whatever else happens, the acknowledgement
    stays the only frame written on that connection and the approval of
    the session stays pending: nothing fires on a deadline.  The frame
    [{"decision":"deny","reason":"timeout"}] is never written on any
    connection. *)
Theorem no_approval_deadline (clk : Clock) (e : Event) (c : socket_server.Conn)
    (sid : string) (srv srv' : socket_server.HookSocketServer) (ls : list Label) :
  reachable srv →
  socket_server.writers srv !! c = None →
  type_is e "PermissionRequest" = true →
  ev_session_id e = Some sid → sid ≠ "" →
  trace (server_step (LAccept clk (socket_server.Decoded e) c) srv) ls srv' →
  Forall (fun l => ¬ decides sid l) ls →
  phase_of sid (socket_server.session_store
                  (server_step (LAccept clk (socket_server.Decoded e) c) srv))
    = Some WAITING_APPROVAL ∧
  (∃ log, socket_server.writers srv' !! c = Some log ∧
          written log = [socket_server.waiting_frame]) ∧
  has_pending sid (socket_server.session_store srv') ∧
  (∀ c' log, socket_server.writers srv' !! c' = Some log →
             timeout_frame ∉ written log).
Proof.
  intros Hreach Hfresh Hty Hsid Hne Htr Hls.
  destruct (accept_permission_request clk e c sid srv) as (Hheld & _ & _ & Hph);
    try done.
  { by apply reachable_registered. }
  split; [exact Hph|].
  destruct (held_trace _ _ _ _ _ Htr Hls Hheld) as (Hlog & _ & Hpend).
  split; [exact Hlog|]. split; [exact Hpend|].
  apply not_built_not_written; [|apply timeout_frame_not_built].
  apply (trace_reachable srv (LAccept clk (socket_server.Decoded e) c :: ls)); [done|].
  by constructor.
Qed.

(** A PermissionRequest of session [B], the end of its connection handler,
    and a log record, with no frontend decision. *)
Lemma no_approval_deadline_witness :
  let c : Clock := fun i => Z.of_nat i in
  let e := tool_hook "PermissionRequest" "B" "Bash" None None in
  let srv1 := server_step (LAccept c (socket_server.Decoded e) 0%nat)
                (socket_server.new_server empty_store) in
  let srv' := server_step (LMessage c "B" (record_of "user" "hi"))
                (server_step (LFinally 0%nat) srv1) in
  has_pending "B" (socket_server.session_store srv') ∧
  ∀ c' log, socket_server.writers srv' !! c' = Some log →
            timeout_frame ∉ written log.
Proof.
  intros c e srv1 srv'.
  destruct (no_approval_deadline c e 0%nat "B"
              (socket_server.new_server empty_store) srv'
              [LFinally 0%nat; LMessage c "B" (record_of "user" "hi")])
    as (_ & _ & Hp & Hno).
  - exists []. constructor.
  - reflexivity.
  - reflexivity.
  - reflexivity.
  - discriminate.
  - constructor.
    + simpl. eexists. split; [reflexivity|].
      intros Hin. apply list_elem_of_singleton in Hin. discriminate.
    + constructor; [exact I | constructor].
  - repeat constructor; simpl; tauto.
  - split; [exact Hp | exact Hno].
Defined.

(** C3 as stated fails: two PermissionRequests of session [C] come on
    connections 0 and 1, then the frontend allows.  The first connection
    is never written again after its acknowledgement: the superseded frame
    occurs on it zero times, not once.  Only the second connection is kept
    for the session, and the decision is written on it. *)
Lemma prior_request_gets_no_superseded_frame :
  let c : Clock := fun i => Z.of_nat i in
  let srv1 := socket_server.handle_client c
                (permission_request "C" "Bash" (JObj [])) 0%nat
                (socket_server.new_server empty_store) in
  let srv2 := socket_server.handle_client c
                (permission_request "C" "Edit" (JObj [])) 1%nat srv1 in
  let srv3 := socket_server.send_approval_response "C" "allow" srv2 in
  socket_server.pending_approvals srv1 !! "C" = Some 0%nat ∧
  socket_server.pending_approvals srv2 !! "C" = Some 1%nat ∧
  socket_server.writers srv2 !! 0%nat =
    Some [socket_server.Write socket_server.waiting_frame; socket_server.Close] ∧
  from_option (occurrences superseded_frame) 1%nat
    (socket_server.writers srv2 !! 0%nat) = 0%nat ∧
  socket_server.writers srv3 !! 0%nat = socket_server.writers srv2 !! 0%nat ∧
  socket_server.writers srv3 !! 1%nat =
    Some [socket_server.Write socket_server.waiting_frame; socket_server.Close;
          socket_server.Write (socket_server.decision_frame "allow")].
Proof. vm_compute. repeat split; reflexivity. Qed.

(** C3, amended. When a PermissionRequest arrives for a session that
    already has a pending hook call, the new connection replaces the prior
    one in [pending_approvals], so exactly one pending hook call is kept
    for the session; the new connection receives the acknowledgement; the
    prior connection receives nothing, and the frame
    [{"decision":"deny","reason":"superseded"}] is written on no
    connection.  The entries of the other sessions are untouched. *)
Theorem permission_request_replaces_pending (clk : Clock) (e : Event)
    (c1 c2 : socket_server.Conn) (sid : string)
    (srv : socket_server.HookSocketServer) (log1 : list socket_server.WriterOp) :
  reachable srv →
  socket_server.pending_approvals srv !! sid = Some c1 →
  socket_server.writers srv !! c1 = Some log1 →
  socket_server.writers srv !! c2 = None →
  type_is e "PermissionRequest" = true →
  ev_session_id e = Some sid → sid ≠ "" →
  let srv' := socket_server.handle_client clk (socket_server.Decoded e) c2 srv in
  socket_server.pending_approvals srv' !! sid = Some c2 ∧
  (∀ c, socket_server.pending_approvals srv' !! sid = Some c → c = c2) ∧
  socket_server.writers srv' !! c2 =
    Some [socket_server.Write socket_server.waiting_frame; socket_server.Close] ∧
  socket_server.writers srv' !! c1 = Some log1 ∧
  (∀ c log, socket_server.writers srv' !! c = Some log →
            superseded_frame ∉ written log) ∧
  (∀ sid', sid' ≠ sid →
           socket_server.pending_approvals srv' !! sid' =
           socket_server.pending_approvals srv !! sid').
Proof.
  intros Hreach Hp1 Hlog1 Hfresh Hty Hsid Hne srv'.
  assert (Hc : c2 ≠ c1) by congruence.
  assert (Hr' : reachable srv').
  { apply (trace_reachable srv [LAccept clk (socket_server.Decoded e) c2; LFinally c2]);
      [done|].
    constructor; [done|]. constructor; [|constructor].
    unfold enabled, server_step.
    rewrite handle_client_try_decoded. cbv zeta. rewrite Hty, Hfresh.
    rewrite writer_do_lookup. simpl. rewrite decide_True by done.
    rewrite lookup_insert_eq. simpl.
    eexists. split; [done|].
    intros Hin. apply list_elem_of_singleton in Hin. discriminate. }
  assert (Hpend : socket_server.pending_approvals srv' =
                  <[sid := c2]> (socket_server.pending_approvals srv)).
  { subst srv'. unfold socket_server.handle_client, socket_server.handle_client_finally.
    rewrite handle_client_try_decoded. cbv zeta.
    rewrite Hty, Hsid, (falsy_some _ Hne). reflexivity. }
  assert (Hwr : ∀ c, socket_server.writers srv' !! c =
                     if decide (c2 = c)
                     then Some [socket_server.Write socket_server.waiting_frame;
                                socket_server.Close]
                     else socket_server.writers srv !! c).
  { intros c. subst srv'.
    unfold socket_server.handle_client, socket_server.handle_client_finally.
    rewrite handle_client_try_decoded. cbv zeta. rewrite Hty, Hfresh.
    rewrite !writer_do_lookup. simpl.
    case_decide as Hcc; [|by rewrite !lookup_insert_ne].
    rewrite decide_True by done. by rewrite !lookup_insert_eq. }
  split; [by rewrite Hpend, lookup_insert_eq|].
  split; [rewrite Hpend, lookup_insert_eq; congruence|].
  split; [rewrite Hwr; by case_decide|].
  split; [rewrite Hwr; by case_decide|].
  split; [by apply not_built_not_written; [|apply superseded_frame_not_built]|].
  intros sid' Hdiff. by rewrite Hpend, lookup_insert_ne.
Qed.

(** A second PermissionRequest of session [C] on a new connection. *)
Lemma permission_request_replaces_pending_witness :
  let c : Clock := fun i => Z.of_nat i in
  let srv1 := server_step (LFinally 0%nat)
                (server_step (LAccept c (permission_request "C" "Bash" (JObj [])) 0%nat)
                   (socket_server.new_server empty_store)) in
  let e := tool_hook "PermissionRequest" "C" "Edit" None None in
  let srv2 := socket_server.handle_client c (socket_server.Decoded e) 1%nat srv1 in
  socket_server.pending_approvals srv2 !! "C" = Some 1%nat ∧
  socket_server.writers srv2 !! 0%nat =
    Some [socket_server.Write socket_server.waiting_frame; socket_server.Close].
Proof.
  intros c srv1 e srv2.
  destruct (permission_request_replaces_pending c e 0%nat 1%nat "C" srv1
              [socket_server.Write socket_server.waiting_frame; socket_server.Close])
    as (H1 & _ & _ & H2 & _).
  - exists [LAccept c (permission_request "C" "Bash" (JObj [])) 0%nat; LFinally 0%nat].
    constructor; [reflexivity|]. constructor; [|constructor].
    simpl. eexists. split; [reflexivity|].
    intros Hin. apply list_elem_of_singleton in Hin. discriminate.
  - reflexivity.
  - reflexivity.
  - reflexivity.
  - reflexivity.
  - reflexivity.
  - discriminate.
  - split; [exact H1 | exact H2].
Defined.

(** * Further properties of the service *)

(** ** The session store *)

Section StoreExtras.

Implicit Types (st : SessionStore) (e : Event) (s : Session) (clk : Clock).

(** A property of keyed sessions that every mutation keeps holds on every
    store reached. *)
Lemma store_invariant_keyed (P : string → Session → Prop) :
  (∀ sid t1 t2, P sid (new_session sid t1 t2)) →
  (∀ sid s t, P sid s → P sid (set_updated_at t s)) →
  (∀ sid now e cache s, P sid s → P sid (dispatch now e cache s).1) →
  (∀ sid s m, P sid s → P sid (set_conversation (conversation s ++ [m]) s)) →
  (∀ sid s, P sid s → P sid (set_phase IDLE (set_pending_approval None s))) →
  (∀ sid s, P sid s → P sid (set_conversation [] s)) →
  ∀ ops st,
    (∀ sid s, sessions st !! sid = Some s → P sid s) →
    ∀ sid s, sessions (run ops st) !! sid = Some s → P sid s.
Proof.
  intros Hnew Hupd Hdis Hmsg Hclr Hconv ops.
  induction ops as [|op ops IH] using rev_ind; intros st Hst sid s; [by apply Hst|].
  rewrite run_snoc. specialize (IH st Hst). revert IH.
  generalize (run ops st). clear st Hst. intros st IH.
  destruct op as [clk e|clk sid' m|sid'|sid']; simpl.
  - destruct (falsy (ev_session_id e)) eqn:Hf.
    { rewrite process_event_dropped by done. apply IH. }
    apply falsy_false in Hf as (sid' & Hsid & Hne).
    rewrite (process_event_named _ _ _ sid') by done. simpl.
    destruct (decide (sid' = sid)) as [->|Hdiff].
    + rewrite lookup_insert_eq. intros [= <-]. apply Hdis, Hupd.
      unfold ensure_session. destruct (sessions st !! sid) eqn:Hl; simpl; eauto.
    + rewrite lookup_insert_ne by done. apply IH.
  - unfold add_message. destruct (sessions st !! sid') as [s'|] eqn:Hl; [|apply IH].
    simpl. destruct (decide (sid' = sid)) as [->|Hdiff].
    + rewrite lookup_insert_eq. intros [= <-]. apply Hupd, Hmsg. eauto.
    + rewrite lookup_insert_ne by done. apply IH.
  - unfold clear_approval. destruct (sessions st !! sid') as [s'|] eqn:Hl; [|apply IH].
    simpl. destruct (decide (sid' = sid)) as [->|Hdiff].
    + rewrite lookup_insert_eq. intros [= <-]. apply Hclr. eauto.
    + rewrite lookup_insert_ne by done. apply IH.
  - unfold file_monitor.clear_conversation, get_session.
    destruct (sessions st !! sid') as [s'|] eqn:Hl; [|apply IH].
    simpl. destruct (decide (sid' = sid)) as [->|Hdiff].
    + rewrite lookup_insert_eq. intros [= <-]. apply Hconv. eauto.
    + rewrite lookup_insert_ne by done. apply IH.
Qed.

Lemma post_tool_use_fields now e cache s :
  let s' := (_handle_post_tool_use now e cache s).1 in
  session_id s' = session_id s ∧ pending_approval s' = pending_approval s ∧
  conversation s' = conversation s ∧ created_at s' = created_at s ∧
  phase s' = IDLE ∧
  (active_tool s' = active_tool s ∨ active_tool s' = None).
Proof.
  unfold _handle_post_tool_use. cbv zeta.
  destruct (active_tool s) as [t|] eqn:Ha; simpl.
  - destruct (String.eqb _ _); simpl; repeat split; auto.
  - repeat split; auto.
Qed.

End StoreExtras.

(** X1. On every run, each session is stored under its own identifier:
    the key of the [sessions] dictionary is the [session_id] of the
    record. *)
Theorem sessions_keyed_by_session_id (ops : list StoreOp) (sid : string)
    (s : Session) :
  sessions (run ops empty_store) !! sid = Some s → session_id s = sid.
Proof.
  revert sid s.
  apply (store_invariant_keyed (fun sid s => session_id s = sid)); try done.
  intros sid now e cache s Hs.
  by destruct (dispatch_keeps_identity now e cache s) as (-> & _).
Qed.

(** The session that a first event creates for [A]. *)
Lemma sessions_keyed_by_session_id_witness :
  session_id (new_session "A" 0 0)
  = "A".
Proof.
  apply (sessions_keyed_by_session_id
           [OpEvent (fun _ => 0) (hook "PreCompact" "A")] "A").
  reflexivity.
Defined.

(** X2. On every run, the active tool of a session, when there is one, is
    a tool still running: its status is "running" and it has neither end
    time nor result; and a session in phase running_tool has an active
    tool. *)
Theorem active_tool_is_running (ops : list StoreOp) (sid : string) (s : Session) :
  sessions (run ops empty_store) !! sid = Some s →
  (∀ t, active_tool s = Some t →
        status t = "running" ∧ end_time t = None ∧ result t = None) ∧
  (phase s = RUNNING_TOOL → is_Some (active_tool s)).
Proof.
  revert sid s.
  apply (store_invariant
           (fun s => (∀ t, active_tool s = Some t →
                           status t = "running" ∧ end_time t = None ∧
                           result t = None) ∧
                     (phase s = RUNNING_TOOL → is_Some (active_tool s))));
    try done.
  - intros now e cache s [Hrun Hph].
    destruct (dispatch_cases now e cache s)
      as [-> | [-> | [-> | [-> | [-> | [-> | [-> | ->]]]]]]];
      try (by split; [exact Hrun | done]).
    + simpl. split; [|eauto]. by intros t [= <-].
    + destruct (post_tool_use_fields now e cache s)
        as (_ & _ & _ & _ & Hp & [Ha|Ha]).
      * rewrite Ha, Hp. split; [exact Hrun | done].
      * rewrite Ha, Hp. split; done.
    + split; done.
  - intros s [Hrun Hph]. split; [exact Hrun | done].
Qed.

Lemma active_tool_is_running_witness :
  let c : Clock := fun i => Z.of_nat i in
  let st := run [OpEvent c (tool_hook "PreToolUse" "A" "Read" None None)]
              empty_store in
  ∃ s t, sessions st !! "A" = Some s ∧ active_tool s = Some t ∧
         status t = "running".
Proof.
  intros c st.
  destruct (sessions st !! "A") as [s|] eqn:Hs; [|discriminate Hs].
  destruct (active_tool_is_running
              [OpEvent c (tool_hook "PreToolUse" "A" "Read" None None)] "A" s Hs)
    as [Hrun Hph].
  destruct (Hph ltac:(by injection Hs as <-)) as [t Ht].
  exists s, t. split; [done|]. split; [done|]. by apply Hrun.
Defined.

(** X3. No hook event changes a conversation: for every event and every
    session id, the conversation read before and after [process_event] is
    the same (a session the event creates starts with an empty one). *)
Theorem events_keep_conversations (clk : Clock) (e : Event) (st : SessionStore)
    (sid : string) :
  conversation_of sid (process_event clk e st) = conversation_of sid st.
Proof.
  unfold conversation_of, get_session.
  destruct (falsy (ev_session_id e)) eqn:Hf.
  { by rewrite process_event_dropped. }
  apply falsy_false in Hf as (sid' & Hsid & Hne).
  rewrite (process_event_named _ _ _ sid') by done. simpl.
  destruct (decide (sid' = sid)) as [->|Hdiff]; [|by rewrite lookup_insert_ne].
  rewrite lookup_insert_eq. simpl.
  destruct (dispatch_keeps_identity
              (clk (S (ensure_session clk sid st).2)) e (_pending_tool_cache st)
              (set_updated_at (clk (ensure_session clk sid st).2)
                              (ensure_session clk sid st).1)) as (_ & -> & _).
  unfold ensure_session. by destruct (sessions st !! sid).
Qed.

(** X4. PreToolUse followed by PostToolUse with the same tool name (also
    when both lack one and fall back to "Unknown"), for the same session
    and on any store, appends exactly one record to [tools]: the tool with
    the parameters of the first event, the result of the second, status
    "success", and start and end times read by the two handlers.  The
    session ends in phase idle without an active tool. *)
Theorem tool_use_round_trip (c1 c2 : Clock) (e1 e2 : Event) (st : SessionStore)
    (sid : string) :
  ev_session_id e1 = Some sid → ev_session_id e2 = Some sid → sid ≠ "" →
  type_is e1 "PreToolUse" = true → type_is e2 "PostToolUse" = true →
  ev_tool_name e1 = ev_tool_name e2 →
  let s0 := ensure_session c1 sid st in
  ∃ s, sessions (process_event c2 e2 (process_event c1 e1 st)) !! sid = Some s ∧
       tools s = (tools s0.1 ++
                  [ {| name := event_tool_name e1; status := "success";
                       start_time := c1 (S s0.2); end_time := Some (c2 1%nat);
                       result := ev_result e2;
                       parameters := ev_parameters e1 |} ])%list ∧
       active_tool s = None ∧ phase s = IDLE ∧
       pending_approval s = pending_approval s0.1 ∧
       conversation s = conversation s0.1.
Proof.
  intros Hs1 Hs2 Hne Ht1 Ht2 Hname s0.
  apply type_is_true in Ht1. apply type_is_true in Ht2.
  assert (Hd1 : ∀ now cache s, dispatch now e1 cache s =
                               _handle_pre_tool_use now e1 cache s).
  { intros. unfold dispatch, type_is. by rewrite Ht1. }
  assert (Hd2 : ∀ now cache s, dispatch now e2 cache s =
                               _handle_post_tool_use now e2 cache s).
  { intros. unfold dispatch, type_is. by rewrite Ht2. }
  rewrite (process_event_named c2 e2 _ sid) by done.
  assert (Hmid : sessions (process_event c1 e1 st) !! sid =
                 Some (_handle_pre_tool_use (c1 (S s0.2)) e1 (_pending_tool_cache st)
                         (set_updated_at (c1 s0.2) s0.1)).1).
  { rewrite (process_event_named c1 e1 _ sid) by done. simpl.
    by rewrite lookup_insert_eq, Hd1. }
  rewrite (ensure_session_present _ _ _ _ Hmid). simpl.
  rewrite lookup_insert_eq, Hd2. eexists. split; [done|].
  unfold _handle_post_tool_use, event_tool_name. simpl.
  rewrite <- Hname, String.eqb_refl. simpl. done.
Qed.

Lemma tool_use_round_trip_witness :
  let c : Clock := fun i => Z.of_nat i in
  let e1 := hook "PreToolUse" "A" in
  let e2 := hook "PostToolUse" "A" in
  ∃ s, sessions (process_event c e2 (process_event c e1 empty_store)) !! "A"
       = Some s ∧
       (name <$> tools s) = ["Unknown"] ∧ active_tool s = None.
Proof.
  intros c e1 e2.
  destruct (tool_use_round_trip c c e1 e2 empty_store "A"
              eq_refl eq_refl ltac:(discriminate) eq_refl eq_refl eq_refl)
    as (s & Hs & Ht & Ha & _).
  exists s. split; [exact Hs|]. split; [|exact Ha]. rewrite Ht. reflexivity.
Defined.

(** X5. Stop and SubagentStop drop the active tool without a completion
    record: the session goes to phase idle with no active tool, and
    [tools], [pending_approval] and [conversation] are as before. *)
Theorem stop_drops_active_tool (clk : Clock) (e : Event) (st : SessionStore)
    (sid : string) (s : Session) :
  ev_session_id e = Some sid → sid ≠ "" →
  type_is e "Stop" = true ∨ type_is e "SubagentStop" = true →
  sessions st !! sid = Some s →
  ∃ s', sessions (process_event clk e st) !! sid = Some s' ∧
        phase s' = IDLE ∧ active_tool s' = None ∧
        tools s' = tools s ∧ pending_approval s' = pending_approval s ∧
        conversation s' = conversation s.
Proof.
  intros Hsid Hne Hty Hs.
  rewrite (process_event_named _ _ _ sid) by done.
  rewrite (ensure_session_present _ _ _ _ Hs). simpl.
  rewrite lookup_insert_eq. eexists. split; [done|].
  assert (Hd : ∀ now cache s0, dispatch now e cache s0 = (_handle_stop s0, cache)).
  { intros. destruct Hty as [Hty|Hty]; apply type_is_true in Hty;
      unfold dispatch, type_is; by rewrite Hty. }
  rewrite Hd. done.
Qed.

Lemma stop_drops_active_tool_witness :
  let c : Clock := fun i => Z.of_nat i in
  let st := run [OpEvent c (tool_hook "PreToolUse" "A" "Bash" None None)]
              empty_store in
  ∃ s', sessions (process_event c (hook "SubagentStop" "A") st) !! "A" = Some s' ∧
        phase s' = IDLE ∧ active_tool s' = None ∧ tools s' = [].
Proof.
  intros c st.
  destruct (sessions st !! "A") as [s|] eqn:Hs; [|discriminate Hs].
  destruct (stop_drops_active_tool c (hook "SubagentStop" "A") st "A" s
              eq_refl ltac:(discriminate) (or_intror eq_refl) Hs)
    as (s' & Hs' & Hp & Ha & Ht & _).
  exists s'. split; [exact Hs'|]. split; [exact Hp|]. split; [exact Ha|].
  rewrite Ht. by injection Hs as <-.
Defined.

(** X6. A PermissionRequest followed by [clear_approval] for the same
    session leaves no approval pending and the phase idle, whatever the
    phase was before the request; the active tool, [tools] and the
    conversation are those from before the request. *)
Theorem approval_round_trip (clk : Clock) (e : Event) (st : SessionStore)
    (sid : string) (s : Session) :
  ev_session_id e = Some sid → sid ≠ "" →
  type_is e "PermissionRequest" = true →
  sessions st !! sid = Some s →
  sessions (clear_approval sid (process_event clk e st)) !! sid =
    Some (set_phase IDLE (set_pending_approval None
                            (set_updated_at (clk 0%nat) s))) ∧
  clear_approval sid (clear_approval sid (process_event clk e st)) =
    clear_approval sid (process_event clk e st).
Proof.
  intros Hsid Hne Hty Hs.
  assert (Hmid : sessions (process_event clk e st) !! sid =
                 Some (_handle_permission_request (clk 1%nat) e
                         (set_updated_at (clk 0%nat) s))).
  { rewrite (process_event_named _ _ _ sid) by done.
    rewrite (ensure_session_present _ _ _ _ Hs). simpl.
    rewrite lookup_insert_eq. apply type_is_true in Hty.
    unfold dispatch, type_is. by rewrite Hty. }
  split.
  - unfold clear_approval. rewrite Hmid. simpl. by rewrite lookup_insert_eq.
  - unfold clear_approval at 2 3. rewrite Hmid.
    unfold clear_approval. simpl. rewrite lookup_insert_eq. simpl.
    by rewrite insert_insert_eq.
Qed.

Lemma approval_round_trip_witness :
  let c : Clock := fun i => Z.of_nat i in
  let st := run [OpEvent c (tool_hook "PreToolUse" "A" "Bash" None None)]
              empty_store in
  let e := tool_hook "PermissionRequest" "A" "Bash" None None in
  (phase <$> sessions (clear_approval "A" (process_event c e st)) !! "A")
    = Some IDLE.
Proof.
  intros c st e.
  destruct (sessions st !! "A") as [s|] eqn:Hs; [|discriminate Hs].
  destruct (approval_round_trip c e st "A" s
              eq_refl ltac:(discriminate) eq_refl Hs) as [H _].
  rewrite H. reflexivity.
Defined.

Section Commutation.

Implicit Types (st : SessionStore) (e : Event) (s : Session) (clk : Clock).

(** What a handler returns for the session does not depend on the cache. *)
Lemma dispatch_session_any_cache now e cache cache' s :
  (dispatch now e cache s).1 = (dispatch now e cache' s).1.
Proof.
  unfold dispatch.
  repeat match goal with
         | |- context [if ?b then _ else _] => destruct b
         end; reflexivity.
Qed.

Lemma ensure_session_other clk e clk' sid st :
  default "" (ev_session_id e) ≠ sid →
  ensure_session clk' sid (process_event clk e st) = ensure_session clk' sid st.
Proof.
  intros Hdiff. destruct (falsy (ev_session_id e)) eqn:Hf.
  { by rewrite process_event_dropped. }
  apply falsy_false in Hf as (sid' & Hsid & Hne).
  rewrite Hsid in Hdiff. simpl in Hdiff.
  rewrite (process_event_named _ _ _ sid') by done.
  unfold ensure_session. simpl. by rewrite lookup_insert_ne.
Qed.

Lemma untimed_session_fields a b :
  untimed_session a = untimed_session b →
  session_id a = session_id b ∧ phase a = phase b ∧
  untimed_tool <$> active_tool a = untimed_tool <$> active_tool b ∧
  untimed_approval <$> pending_approval a = untimed_approval <$> pending_approval b ∧
  untimed_tool <$> tools a = untimed_tool <$> tools b ∧
  conversation a = conversation b.
Proof. unfold untimed_session. intros [= ? ? ? ? ? ?]. done. Qed.

Lemma untimed_session_updated_at t s :
  untimed_session (set_updated_at t s) = untimed_session s.
Proof. reflexivity. Qed.

(** The session that [process_event] starts from is the same, clock
    readings apart, whatever the clock reads. *)
Lemma ensure_session_untimed clk clk' sid st :
  untimed_session (ensure_session clk sid st).1 =
  untimed_session (ensure_session clk' sid st).1.
Proof. unfold ensure_session. by destruct (sessions st !! sid). Qed.

(** On two sessions that are the same, clock readings apart, a handler
    gives two sessions that are the same, clock readings apart, whatever
    time it reads and whatever the cache holds. *)
Lemma dispatch_untimed now now' e cache cache' s s' :
  untimed_session s = untimed_session s' →
  untimed_session (dispatch now e cache s).1 =
  untimed_session (dispatch now' e cache' s').1.
Proof.
  intros H. pose proof (untimed_session_fields _ _ H) as (Hi & Hp & Ha & Hq & Ht & Hc).
  unfold dispatch.
  repeat match goal with
         | |- context [if ?b then _ else _] => destruct b
         end; simpl;
    try (unfold untimed_session, untimed_tool, untimed_approval,
           _handle_notification in *;
         simpl in *; congruence).
  destruct (active_tool s) as [t|] eqn:Et, (active_tool s') as [t'|] eqn:Et';
    simpl in Ha; try discriminate Ha.
  - injection Ha as Hn Hst Hend Hres Hpar.
    rewrite Hn. destruct (String.eqb (name t') (event_tool_name e));
      unfold untimed_session; simpl.
    + rewrite !fmap_app, Ht. unfold untimed_tool at 2 4. simpl.
      by rewrite Hi, Hq, Hc, Hpar.
    + rewrite Et, Et', Hi, Hq, Ht, Hc. simpl. unfold untimed_tool.
      by rewrite Hn, Hst, Hend, Hres, Hpar.
  - unfold untimed_session. simpl. by rewrite Et, Et', Hi, Hq, Ht, Hc.
Qed.

(** [process_event] reads the clock four times at most. *)
Lemma process_event_clock c d e st :
  (∀ i, c i = d i) → process_event c e st = process_event d e st.
Proof.
  intros H. unfold process_event, ensure_session.
  destruct (falsy (ev_session_id e)); [done|].
  destruct (sessions st !! default "" (ev_session_id e)); by rewrite !H.
Qed.

End Commutation.

(** X7. Hook events of two different sessions commute on the sessions
    dictionary, clock readings apart: applied in either order, whatever the
    clock reads in each order, they leave the same sessions with the same
    fields except [created_at], [updated_at], the start and end times of
    tools and the timestamp of the pending approval.  When each event reads
    the same times in both orders, the sessions are equal. *)
Theorem events_of_distinct_sessions_commute (c1 c2 d1 d2 : Clock) (e1 e2 : Event)
    (st : SessionStore) (sid1 sid2 : string) :
  ev_session_id e1 = Some sid1 → ev_session_id e2 = Some sid2 → sid1 ≠ sid2 →
  untimed_session <$> sessions (process_event c1 e1 (process_event c2 e2 st)) =
  untimed_session <$> sessions (process_event d2 e2 (process_event d1 e1 st)) ∧
  ((∀ i, c1 i = d1 i) → (∀ i, c2 i = d2 i) →
   sessions (process_event c1 e1 (process_event c2 e2 st)) =
   sessions (process_event d2 e2 (process_event d1 e1 st))).
Proof.
  intros Hs1 Hs2 Hdiff.
  assert (Hexact : sessions (process_event d1 e1 (process_event d2 e2 st)) =
                   sessions (process_event d2 e2 (process_event d1 e1 st))).
  { destruct (decide (sid1 = "")) as [->|Hn1].
    { by rewrite !(process_event_dropped d1 e1) by (by rewrite Hs1). }
    destruct (decide (sid2 = "")) as [->|Hn2].
    { by rewrite !(process_event_dropped d2 e2) by (by rewrite Hs2). }
    rewrite (process_event_named d1 e1 (process_event d2 e2 st) sid1) by done.
    rewrite (process_event_named d2 e2 (process_event d1 e1 st) sid2) by done.
    rewrite (ensure_session_other d2 e2 d1 sid1) by (rewrite Hs2; simpl; congruence).
    rewrite (ensure_session_other d1 e1 d2 sid2) by (rewrite Hs1; simpl; congruence).
    rewrite (process_event_named d1 e1 st sid1) by done.
    rewrite (process_event_named d2 e2 st sid2) by done.
    simpl. rewrite insert_insert_ne by done.
    f_equal; [|f_equal]; apply dispatch_session_any_cache. }
  split.
  - rewrite <- Hexact.
    destruct (decide (sid1 = "")) as [->|Hn1].
    { rewrite !(process_event_dropped _ e1) by (by rewrite Hs1).
      destruct (decide (sid2 = "")) as [->|Hn2].
      { by rewrite !(process_event_dropped _ e2) by (by rewrite Hs2). }
      rewrite !(process_event_named _ e2 st sid2) by done. simpl.
      rewrite !fmap_insert. f_equal.
      apply dispatch_untimed. rewrite !untimed_session_updated_at.
      apply ensure_session_untimed. }
    rewrite (process_event_named c1 e1 _ sid1) by done.
    rewrite (process_event_named d1 e1 _ sid1) by done.
    rewrite !ensure_session_other by (rewrite Hs2; simpl; congruence).
    simpl. rewrite !fmap_insert. f_equal.
    + apply dispatch_untimed. rewrite !untimed_session_updated_at.
      apply ensure_session_untimed.
    + destruct (decide (sid2 = "")) as [->|Hn2].
      { by rewrite !(process_event_dropped _ e2) by (by rewrite Hs2). }
      rewrite !(process_event_named _ e2 st sid2) by done. simpl.
      rewrite !fmap_insert. f_equal.
      apply dispatch_untimed. rewrite !untimed_session_updated_at.
      apply ensure_session_untimed.
  - intros H1 H2. rewrite <- Hexact.
    rewrite (process_event_clock c2 d2) by done.
    by rewrite (process_event_clock c1 d1).
Qed.

(** A PreToolUse of session [A] and a UserPromptSubmit of session [B],
    in the two orders under one running clock: whichever comes second
    reads the later times.  The sessions dictionaries are the same, clock
    readings apart, and differ in the times. *)
Lemma events_of_distinct_sessions_commute_witness :
  let early : Clock := fun i => Z.of_nat i in
  let late : Clock := fun i => 4 + Z.of_nat i in
  let e1 := tool_hook "PreToolUse" "A" "Read" None None in
  let e2 := hook "UserPromptSubmit" "B" in
  untimed_session <$>
    sessions (process_event late e1 (process_event early e2 empty_store)) =
  untimed_session <$>
    sessions (process_event late e2 (process_event early e1 empty_store)) ∧
  sessions (process_event late e1 (process_event early e2 empty_store)) ≠
  sessions (process_event late e2 (process_event early e1 empty_store)).
Proof.
  intros early late e1 e2. split.
  - apply (proj1 (events_of_distinct_sessions_commute late early early late
                    e1 e2 empty_store "A" "B"
                    eq_refl eq_refl ltac:(discriminate))).
  - intros H. apply (f_equal (λ m, created_at <$> m !! "A")) in H.
    vm_compute in H. discriminate H.
Defined.

(** ** The hook endpoint *)

Section ServerExtras.
Import socket_server.

Implicit Types (srv : HookSocketServer) (c : Conn).

Lemma step_keeps_pending_sessions l srv :
  (∀ sid c, pending_approvals srv !! sid = Some c →
            has_pending sid (session_store srv)) →
  ∀ sid c, pending_approvals (server_step l srv) !! sid = Some c →
           has_pending sid (session_store (server_step l srv)).
Proof.
  intros Hinv sid c.
  destruct l as [clk data c'|c'|sid' d|clk sid' m|sid']; simpl.
  - destruct data as [| |e]; [by apply Hinv | by apply Hinv |].
    rewrite handle_client_try_decoded. cbv zeta.
    destruct (type_is e "PermissionRequest") eqn:Hty; simpl.
    + destruct (falsy (ev_session_id e)) eqn:Hf.
      { intros Hp. rewrite process_event_dropped by done. by eapply Hinv. }
      apply falsy_false in Hf as (sid' & Hsid & Hne). rewrite Hsid. simpl.
      rewrite lookup_insert. case_decide as Hc.
      * subst sid'. intros _.
        rewrite (process_event_named _ _ _ sid) by done.
        unfold has_pending. simpl. rewrite lookup_insert_eq.
        eexists. split; [done|]. apply type_is_true in Hty.
        unfold dispatch, type_is. rewrite Hty. simpl. eauto.
      * intros Hp. apply (apply_op_keeps_pending (OpEvent clk e)); [done|].
        by eapply Hinv.
    + intros Hp. apply (apply_op_keeps_pending (OpEvent clk e)); [done|].
      by eapply Hinv.
  - apply Hinv.
  - unfold send_approval_response.
    destruct (pending_approvals srv !! sid') as [w|] eqn:Hw; [|apply Hinv].
    simpl. rewrite lookup_delete. case_decide as Hc; [done|].
    intros Hp. apply (apply_op_keeps_pending (OpClearApproval sid')); [congruence|].
    by eapply Hinv.
  - intros Hp. apply (apply_op_keeps_pending (OpMessage clk sid' m)); [done|].
    by eapply Hinv.
  - intros Hp. apply (apply_op_keeps_pending (OpClearConversation sid')); [done|].
    by eapply Hinv.
Qed.

End ServerExtras.

(** X8. In every state of the server, each entry of [pending_approvals]
    belongs to a session of the store whose approval is pending, and its
    writer is that of an accepted connection. *)
Theorem pending_entries_have_pending_sessions
    (srv : socket_server.HookSocketServer) (sid : string) (c : socket_server.Conn) :
  reachable srv →
  socket_server.pending_approvals srv !! sid = Some c →
  has_pending sid (socket_server.session_store srv) ∧
  is_Some (socket_server.writers srv !! c).
Proof.
  intros Hreach Hp. split; [|by eapply reachable_registered].
  destruct Hreach as [ls Htr]. revert sid c Hp.
  assert (Hgen : ∀ a b, trace a ls b →
            (∀ sid c, socket_server.pending_approvals a !! sid = Some c →
                      has_pending sid (socket_server.session_store a)) →
            ∀ sid c, socket_server.pending_approvals b !! sid = Some c →
                     has_pending sid (socket_server.session_store b)).
  { clear. induction 1 as [|a l ls b _ _ IH]; [done|].
    intros Ha. apply IH. by apply step_keeps_pending_sessions. }
  apply (Hgen _ _ Htr). intros sid c. simpl. by rewrite lookup_empty.
Qed.

Lemma pending_entries_have_pending_sessions_witness :
  let c : Clock := fun i => Z.of_nat i in
  let srv := server_step (LAccept c (permission_request "B" "Bash" (JObj [])) 0%nat)
               (socket_server.new_server empty_store) in
  has_pending "B" (socket_server.session_store srv).
Proof.
  intros c srv.
  apply (pending_entries_have_pending_sessions srv "B" 0%nat).
  - exists [LAccept c (permission_request "B" "Bash" (JObj [])) 0%nat].
    constructor; [reflexivity | constructor].
  - reflexivity.
Defined.

(** X9. A frontend decision for a session with a pending hook call writes
    the frame [{"decision": d, "reason": "User decision from frontend"}]
    on the stored writer, after whatever was done to it before, removes
    the entry of the session from [pending_approvals] and clears the
    approval in the store; the entries of other sessions and the other
    writers are untouched. *)
Theorem decision_is_written_and_cleared (srv : socket_server.HookSocketServer)
    (sid decision : string) (c : socket_server.Conn)
    (log : list socket_server.WriterOp) :
  socket_server.pending_approvals srv !! sid = Some c →
  socket_server.writers srv !! c = Some log →
  let srv' := socket_server.send_approval_response sid decision srv in
  socket_server.writers srv' !! c =
    Some (log ++ [socket_server.Write (socket_server.decision_frame decision)])%list ∧
  socket_server.pending_approvals srv' !! sid = None ∧
  socket_server.session_store srv' =
    clear_approval sid (socket_server.session_store srv) ∧
  (∀ s, sessions (socket_server.session_store srv) !! sid = Some s →
        ∃ s', sessions (socket_server.session_store srv') !! sid = Some s' ∧
              pending_approval s' = None ∧ phase s' = IDLE) ∧
  (∀ sid', sid' ≠ sid →
           socket_server.pending_approvals srv' !! sid' =
           socket_server.pending_approvals srv !! sid') ∧
  (∀ c', c' ≠ c →
         socket_server.writers srv' !! c' = socket_server.writers srv !! c').
Proof.
  intros Hp Hlog srv'. subst srv'.
  unfold socket_server.send_approval_response. rewrite Hp. simpl.
  rewrite Hlog. simpl.
  split; [by rewrite lookup_insert_eq|].
  split; [by rewrite lookup_delete_eq|].
  split; [done|].
  split.
  { intros s Hs. unfold clear_approval. rewrite Hs. simpl.
    rewrite lookup_insert_eq. eauto. }
  split.
  - intros sid' Hd. by rewrite lookup_delete_ne.
  - intros c' Hd. by rewrite lookup_insert_ne.
Qed.

Lemma decision_is_written_and_cleared_witness :
  let c : Clock := fun i => Z.of_nat i in
  let srv := socket_server.handle_client c
               (permission_request "B" "Bash" (JObj [])) 0%nat
               (socket_server.new_server empty_store) in
  let srv' := socket_server.send_approval_response "B" "deny" srv in
  socket_server.pending_approvals srv' !! "B" = None ∧
  phase_of "B" (socket_server.session_store srv') = Some IDLE.
Proof.
  intros c srv srv'.
  destruct (decision_is_written_and_cleared srv "B" "deny" 0%nat
              [socket_server.Write socket_server.waiting_frame; socket_server.Close]
              eq_refl eq_refl) as (_ & Hp & _ & Hs & _).
  split; [exact Hp|].
  destruct (Hs (_handle_permission_request 3
                  (tool_hook "PermissionRequest" "B" "Bash" (Some (JObj [])) None)
                  (set_updated_at 2 (new_session "B" 0 1)))
               eq_refl) as (s' & Hs' & _ & Hph).
  unfold phase_of. subst srv'. rewrite Hs'. simpl. by rewrite Hph.
Defined.

(** X10. A late or duplicate decision is dropped: a decision for a session
    without a pending hook call changes nothing, and so a second decision
    for the same session, right after the first, changes nothing. *)
Theorem duplicate_decision_is_dropped (srv : socket_server.HookSocketServer)
    (sid d1 d2 : string) :
  (socket_server.pending_approvals srv !! sid = None →
   socket_server.send_approval_response sid d1 srv = srv) ∧
  socket_server.send_approval_response sid d2
    (socket_server.send_approval_response sid d1 srv) =
  socket_server.send_approval_response sid d1 srv.
Proof.
  split.
  - intros Hp. unfold socket_server.send_approval_response. by rewrite Hp.
  - unfold socket_server.send_approval_response at 2 3.
    destruct (socket_server.pending_approvals srv !! sid) as [w|] eqn:Hw.
    + unfold socket_server.send_approval_response. simpl.
      by rewrite lookup_delete_eq.
    + unfold socket_server.send_approval_response. by rewrite Hw.
Qed.

(** The writer of a connection that brought a PermissionRequest, after
    [handle_client]. *)
Lemma handle_client_permission_log (clk : Clock) (e : Event)
    (c : socket_server.Conn) (srv : socket_server.HookSocketServer) :
  type_is e "PermissionRequest" = true →
  socket_server.writers
    (socket_server.handle_client clk (socket_server.Decoded e) c srv) !! c =
  Some (default [] (socket_server.writers srv !! c) ++
        [socket_server.Write socket_server.waiting_frame; socket_server.Close])%list.
Proof.
  intros Hty.
  unfold socket_server.handle_client, socket_server.handle_client_finally.
  rewrite handle_client_try_decoded. cbv zeta. rewrite Hty.
  rewrite !writer_do_lookup, !decide_True by done. simpl.
  rewrite lookup_insert_eq. simpl. by rewrite <- app_assoc.
Qed.

(** X11. Whatever a connection delivers, [handle_client] ends by closing
    its writer.  Before that it writes one frame, the acknowledgement,
    when the payload is a PermissionRequest, and nothing otherwise.  An
    empty or undecodable payload leaves the session store and
    [pending_approvals] as they were.  The writers of the other
    connections are untouched. *)
Theorem connection_is_always_closed (clk : Clock) (data : socket_server.ClientData)
    (c : socket_server.Conn) (srv : socket_server.HookSocketServer) :
  let srv' := socket_server.handle_client clk data c srv in
  let before := default [] (socket_server.writers srv !! c) in
  let frames :=
    match data with
    | socket_server.Decoded e =>
        if type_is e "PermissionRequest"
        then [socket_server.Write socket_server.waiting_frame] else []
    | _ => []
    end in
  socket_server.writers srv' !! c =
    Some (before ++ frames ++ [socket_server.Close])%list ∧
  match data with
  | socket_server.Decoded _ => True
  | _ => socket_server.session_store srv' = socket_server.session_store srv ∧
         socket_server.pending_approvals srv' = socket_server.pending_approvals srv
  end ∧
  ∀ c', c' ≠ c → socket_server.writers srv' !! c' = socket_server.writers srv !! c'.
Proof.
  intros srv' before frames. subst srv' before frames.
  unfold socket_server.handle_client, socket_server.handle_client_finally.
  destruct data as [| |e].
  - rewrite writer_do_lookup, decide_True by done. simpl.
    rewrite lookup_insert_eq. simpl. split; [done|]. split; [done|].
    intros c' Hc. by rewrite !lookup_insert_ne.
  - rewrite writer_do_lookup, decide_True by done. simpl.
    rewrite lookup_insert_eq. simpl. split; [done|]. split; [done|].
    intros c' Hc. by rewrite !lookup_insert_ne.
  - rewrite handle_client_try_decoded. cbv zeta.
    destruct (type_is e "PermissionRequest").
    + rewrite !writer_do_lookup, !decide_True by done. simpl.
      rewrite lookup_insert_eq. simpl. rewrite <- app_assoc.
      split; [done|]. split; [done|].
      intros c' Hc. by rewrite !lookup_insert_ne.
    + rewrite writer_do_lookup, decide_True by done. simpl.
      rewrite lookup_insert_eq. simpl. split; [done|]. split; [done|].
      intros c' Hc. by rewrite !lookup_insert_ne.
Qed.

(** X12. The decision of the frontend is written on the writer only after
    [handle_client] has closed it: for a PermissionRequest handled on a new
    connection and then decided, the writer has seen the acknowledgement,
    the close, and then the decision frame. *)
Theorem decision_is_written_after_close (clk : Clock) (e : Event)
    (c : socket_server.Conn) (sid decision : string)
    (srv : socket_server.HookSocketServer) :
  socket_server.writers srv !! c = None →
  type_is e "PermissionRequest" = true →
  ev_session_id e = Some sid → sid ≠ "" →
  socket_server.writers
    (socket_server.send_approval_response sid decision
       (socket_server.handle_client clk (socket_server.Decoded e) c srv)) !! c =
  Some [socket_server.Write socket_server.waiting_frame; socket_server.Close;
        socket_server.Write (socket_server.decision_frame decision)].
Proof.
  intros Hfresh Hty Hsid Hne.
  pose proof (handle_client_permission_log clk e c srv Hty) as Hlog.
  rewrite Hfresh in Hlog.
  assert (Hp : socket_server.pending_approvals
                 (socket_server.handle_client clk (socket_server.Decoded e) c srv)
               !! sid = Some c).
  { unfold socket_server.handle_client, socket_server.handle_client_finally.
    rewrite handle_client_try_decoded. cbv zeta.
    rewrite Hty, Hsid, (falsy_some _ Hne). simpl. by rewrite lookup_insert_eq. }
  unfold socket_server.send_approval_response. rewrite Hp.
  cbv zeta. cbn [socket_server.writers].
  rewrite writer_do_lookup, decide_True by done. by rewrite Hlog.
Qed.

Lemma decision_is_written_after_close_witness :
  let c : Clock := fun i => Z.of_nat i in
  let e := tool_hook "PermissionRequest" "B" "Bash" None None in
  socket_server.writers
    (socket_server.send_approval_response "B" "allow"
       (socket_server.handle_client c (socket_server.Decoded e) 7%nat
          (socket_server.new_server empty_store))) !! 7%nat =
  Some [socket_server.Write socket_server.waiting_frame; socket_server.Close;
        socket_server.Write (socket_server.decision_frame "allow")].
Proof.
  intros c e.
  apply (decision_is_written_after_close c e 7%nat "B" "allow");
    [reflexivity | reflexivity | reflexivity | discriminate].
Defined.

(** X13. A PermissionRequest without a session id (absent or empty) is
    acknowledged all the same, but nothing is registered for it: the
    session store and [pending_approvals] are unchanged. *)
Theorem anonymous_permission_request (clk : Clock) (e : Event)
    (c : socket_server.Conn) (srv : socket_server.HookSocketServer) :
  type_is e "PermissionRequest" = true →
  falsy (ev_session_id e) = true →
  let srv' := socket_server.handle_client clk (socket_server.Decoded e) c srv in
  socket_server.writers srv' !! c =
    Some (default [] (socket_server.writers srv !! c) ++
          [socket_server.Write socket_server.waiting_frame; socket_server.Close])%list ∧
  socket_server.session_store srv' = socket_server.session_store srv ∧
  socket_server.pending_approvals srv' = socket_server.pending_approvals srv.
Proof.
  intros Hty Hf srv'.
  pose proof (handle_client_permission_log clk e c srv Hty) as Hlog.
  split; [exact Hlog|].
  subst srv'. unfold socket_server.handle_client, socket_server.handle_client_finally.
  rewrite handle_client_try_decoded. cbv zeta. rewrite Hty, Hf. simpl.
  by rewrite process_event_dropped.
Qed.

Lemma anonymous_permission_request_witness :
  let c : Clock := fun i => Z.of_nat i in
  let e := {| ev_type := Some "PermissionRequest"; ev_session_id := None;
              ev_tool_name := Some "Bash"; ev_parameters := None;
              ev_result := None |} in
  let srv' := socket_server.handle_client c (socket_server.Decoded e) 0%nat
                (socket_server.new_server empty_store) in
  socket_server.writers srv' !! 0%nat =
    Some [socket_server.Write socket_server.waiting_frame; socket_server.Close] ∧
  socket_server.pending_approvals srv' = ∅.
Proof.
  intros c e srv'.
  destruct (anonymous_permission_request c e 0%nat
              (socket_server.new_server empty_store) eq_refl eq_refl)
    as (H1 & _ & H2).
  split; [exact H1 | exact H2].
Defined.

(** ** The log tailer *)

Section TailerExtras.
Import conversation_parser.

Variable json_loads : string → option Dict.

Lemma text_from_beyond (pos : nat) (s : string) :
  (String.length s ≤ pos)%nat → text_from pos s = "".
Proof.
  revert s. induction pos as [|n IH]; intros s Hle.
  - destruct s; [done | simpl in Hle; lia].
  - destruct s as [|c s]; [done|]. simpl in *. apply IH. lia.
Qed.

Lemma append_empty (s : string) : s +:+ "" = s.
Proof. induction s as [|c s IH]; [done|]. by rewrite append_cons, IH. Qed.

Lemma parse_full_records (fs : FileSystem) (p : ConversationParser) (content : string) :
  fs !! conversation_file p = Some content →
  parse_full json_loads fs p =
    (omap (parse_line json_loads) (readlines content),
     {| session_dir := session_dir p; conversation_file := conversation_file p;
        last_position := String.length content |}).
Proof.
  intros Hf. unfold parse_full, parse_incremental, reset. simpl.
  rewrite Hf. by rewrite ?text_from_0.
Qed.

Lemma detect_clear_app (pre post : list Dict) :
  detect_clear_command pre = Some false →
  detect_clear_command (pre ++ post) = detect_clear_command post.
Proof.
  induction pre as [|m pre IH]; [done|]. simpl.
  destruct (is_user m); [|exact IH].
  destruct (default (JStr "") (dict_get "content" m)); try done.
  destruct (String.prefix _ _); [done | exact IH].
Qed.

End TailerExtras.

(** X14. A poll that finds no new text returns no record and leaves the
    parser as it was: when the log is missing, when nothing was appended
    since the last poll, and also when the log has been truncated below
    the stored offset (the offset is kept, not reset). *)
Theorem poll_without_new_text (json_loads : string → option Dict)
    (fs : conversation_parser.FileSystem)
    (p : conversation_parser.ConversationParser) :
  (fs !! conversation_parser.conversation_file p = None ∨
   ∃ content, fs !! conversation_parser.conversation_file p = Some content ∧
              (String.length content ≤ conversation_parser.last_position p)%nat) →
  conversation_parser.parse_incremental json_loads fs p = ([], p).
Proof.
  unfold conversation_parser.parse_incremental.
  intros [->|(content & -> & Hle)]; [done|].
  rewrite text_from_beyond by done. simpl.
  destruct p as [d f pos]. simpl. by rewrite Nat.add_0_r.
Qed.

(** A log cut down to one line while the parser stands at offset 100. *)
Lemma poll_without_new_text_witness :
  let p := {| conversation_parser.session_dir := ["sessions"; "s1"];
              conversation_parser.conversation_file := demo_file;
              conversation_parser.last_position := 100 |} in
  conversation_parser.parse_incremental demo_loads
    (demo_fs (unlines [line_of "user" "hi"])) p = ([], p).
Proof.
  intros p. apply (poll_without_new_text demo_loads).
  right. eexists. split; [reflexivity|]. vm_compute. lia.
Defined.

(** X15. Polls compose on line boundaries: when the log holds whole lines
    at the first poll and more text at the second, the records of the two
    polls, one after the other, are the records of one parse of the whole
    log from the start, and the parser ends at the end of the log. *)
Theorem polls_compose (json_loads : string → option Dict)
    (fs1 fs2 : conversation_parser.FileSystem)
    (p : conversation_parser.ConversationParser)
    (ls : list string) (more : string) :
  fs1 !! conversation_parser.conversation_file p = Some (unlines ls) →
  fs2 !! conversation_parser.conversation_file p = Some (unlines ls +:+ more) →
  Forall (fun l => no_newline l = true) ls →
  let r1 := conversation_parser.parse_full json_loads fs1 p in
  let r2 := conversation_parser.parse_incremental json_loads fs2 r1.2 in
  (r1.1 ++ r2.1)%list = (conversation_parser.parse_full json_loads fs2 p).1 ∧
  r2.2 = (conversation_parser.parse_full json_loads fs2 p).2.
Proof.
  intros H1 H2 Hls r1 r2. subst r1 r2.
  rewrite (parse_full_records _ _ _ _ H1), (parse_full_records _ _ _ _ H2). simpl.
  unfold conversation_parser.parse_incremental. simpl. rewrite H2.
  rewrite text_from_append. simpl.
  split.
  - rewrite (readlines_unlines ls more) by done.
    rewrite <- (append_empty (unlines ls)) at 1.
    rewrite (readlines_unlines ls "") by done. simpl.
    by rewrite app_nil_r, omap_app.
  - f_equal. rewrite <- (text_from_length (String.length (unlines ls))
                          (unlines ls +:+ more)).
    + by rewrite text_from_append.
    + clear. induction (unlines ls) as [|c s IH]; simpl; lia.
Qed.

Lemma polls_compose_witness :
  let p := conversation_parser.new_parser ["sessions"; "s1"] in
  let r1 := conversation_parser.parse_full demo_loads (demo_fs seed_text) p in
  let r2 := conversation_parser.parse_incremental demo_loads
              (demo_fs (seed_text +:+ later_text)) r1.2 in
  (r1.1 ++ r2.1)%list =
  (conversation_parser.parse_full demo_loads (demo_fs (seed_text +:+ later_text)) p).1.
Proof.
  intros p r1 r2.
  apply (polls_compose demo_loads (demo_fs seed_text)
           (demo_fs (seed_text +:+ later_text)) p
           [line_of "user" "one"; line_of "assistant" "two"; line_of "user" "three"]
           later_text).
  - reflexivity.
  - reflexivity.
  - repeat constructor.
Defined.

(** X16. The parse of a subagent log gives the records that a full parse
    of a conversation log with the same text gives; a missing subagent log
    gives none. *)
Theorem subagent_parse_is_full_parse (json_loads : string → option Dict)
    (fs fs' : conversation_parser.FileSystem)
    (sp : conversation_parser.SubagentParser.t)
    (p : conversation_parser.ConversationParser) :
  fs !! conversation_parser.SubagentParser.subagent_file sp =
    fs' !! conversation_parser.conversation_file p →
  conversation_parser.SubagentParser.parse json_loads fs sp =
    (conversation_parser.parse_full json_loads fs' p).1.
Proof.
  intros Hsame. unfold conversation_parser.SubagentParser.parse. rewrite Hsame.
  destruct (fs' !! conversation_parser.conversation_file p) as [content|] eqn:Hf.
  - by rewrite (parse_full_records _ _ _ _ Hf).
  - unfold conversation_parser.parse_full, conversation_parser.parse_incremental.
    simpl. by rewrite Hf.
Qed.

Lemma subagent_parse_is_full_parse_witness :
  conversation_parser.SubagentParser.parse demo_loads
    {[ ["sessions"; "s1"; "task-7.jsonl"] := seed_text ]}
    (conversation_parser.SubagentParser.new ["sessions"; "s1"] "7") =
  [record_of "user" "one"; record_of "assistant" "two"; record_of "user" "three"].
Proof.
  rewrite (subagent_parse_is_full_parse demo_loads _ (demo_fs seed_text) _
             (conversation_parser.new_parser ["sessions"; "s1"]));
    reflexivity.
Defined.

(** X17. When every user message of a batch has a text content (or none),
    [detect_clear_command] answers without raising, and answers true
    exactly when some user message of the batch, stripped, starts with
    [/clear]; messages of other types never count. *)
Theorem detect_clear_command_spec (messages : list Dict) :
  forallb content_is_text messages = true →
  conversation_parser.detect_clear_command messages =
    Some (existsb is_clear_message messages).
Proof.
  induction messages as [|m ms IH]; [done|].
  simpl. intros [Hm Hms]%andb_true_iff.
  unfold content_is_text, is_clear_message in *.
  destruct (conversation_parser.is_user m); simpl in *; [|by apply IH].
  destruct (default (JStr "") (dict_get "content" m)); try done.
  destruct (String.prefix _ _); [done | by apply IH].
Qed.

Lemma detect_clear_command_spec_witness :
  conversation_parser.detect_clear_command
    [record_of "assistant" "/clear"; record_of "user" "  /clear now"] = Some true.
Proof.
  apply (detect_clear_command_spec
           [record_of "assistant" "/clear"; record_of "user" "  /clear now"]).
  reflexivity.
Defined.

(** ** The file monitor *)

Section MonitorExtras.
Import conversation_parser file_monitor.

Lemma add_messages_unknown (clk : Clock) (sid : string) (messages : list Dict)
    (st : SessionStore) :
  sessions st !! sid = None → add_messages clk sid messages st = st.
Proof.
  revert clk. induction messages as [|m ms IH]; intros clk Hs; [done|].
  simpl. unfold add_message at 1. rewrite Hs. by apply IH.
Qed.

Lemma clear_conversation_unknown (sid : string) (st : SessionStore) :
  sessions st !! sid = None → clear_conversation sid st = st.
Proof. intros Hs. unfold clear_conversation, get_session. by rewrite Hs. Qed.

(** A user message whose content is not a string, after messages without
    [/clear], makes [detect_clear_command] raise. *)
Lemma detect_clear_raises (pre post : list Dict) (bad : Dict) :
  detect_clear_command pre = Some false →
  is_user bad = true → content_is_text bad = false →
  detect_clear_command (pre ++ bad :: post) = None.
Proof.
  intros Hpre Hu Hbad. rewrite detect_clear_app by done. simpl. rewrite Hu.
  unfold content_is_text in Hbad. rewrite Hu in Hbad. simpl in Hbad.
  by destruct (default (JStr "") (dict_get "content" bad)).
Qed.

End MonitorExtras.

(** X18. Debounce: once a modification of a log has been handled at time
    [now], a further modification event of the same path less than 100 ms
    later is dropped whole, whatever the log holds by then: handler and
    store stay as the first call left them. *)
Theorem debounce_drops_second_event (json_loads : string → option Dict)
    (fs fs' : conversation_parser.FileSystem) (now now' : Z) (clk clk' : Clock)
    (ev : file_monitor.FileSystemEvent)
    (h : file_monitor.ConversationFileHandler) (st : SessionStore) :
  file_monitor.is_directory ev = false →
  conversation_parser.path_name (file_monitor.src_path ev) = "conversation.jsonl" →
  file_monitor.debounce_delay ≤
    now - default 0 (file_monitor.debounce_times h !! file_monitor.src_path ev) →
  now' - now < file_monitor.debounce_delay →
  let r := file_monitor.on_modified json_loads fs now clk ev h st in
  file_monitor.on_modified json_loads fs' now' clk' ev r.1.1 r.1.2 =
    (r.1.1, r.1.2, file_monitor.Returned).
Proof.
  intros Hdir Hname Hfirst Hsecond r.
  assert (Hd : file_monitor.debounce_times r.1.1 !! file_monitor.src_path ev
               = Some now).
  { subst r. unfold file_monitor.on_modified. rewrite Hdir, Hname. simpl.
    rewrite (proj2 (Z.ltb_ge _ _)) by done.
    destruct (conversation_parser.parse_incremental _ _ _) as [batch p'].
    destruct (conversation_parser.detect_clear_command batch) as [clear|];
      simpl; by rewrite lookup_insert_eq. }
  unfold file_monitor.on_modified at 1. rewrite Hdir, Hname. simpl.
  rewrite Hd. simpl. by rewrite (proj2 (Z.ltb_lt _ _)) by done.
Qed.

Lemma debounce_drops_second_event_witness :
  let st := process_event (fun _ => 0) (hook "SessionStart" "s1") empty_store in
  let r := file_monitor.on_modified demo_loads (demo_fs seed_text) 1000
             (fun _ => 1000) (modified demo_file) file_monitor.new_handler st in
  file_monitor.on_modified demo_loads (demo_fs (seed_text +:+ later_text)) 1099
    (fun _ => 1099) (modified demo_file) r.1.1 r.1.2 =
    (r.1.1, r.1.2, file_monitor.Returned).
Proof.
  intros st r.
  apply (debounce_drops_second_event demo_loads (demo_fs seed_text)
           (demo_fs (seed_text +:+ later_text)) 1000 1099
           (fun _ => 1000) (fun _ => 1099) (modified demo_file)
           file_monitor.new_handler st).
  - reflexivity.
  - reflexivity.
  - vm_compute. discriminate.
  - vm_compute. reflexivity.
Defined.

(** X19. A modification whose new records hold no [/clear], for a session
    the store holds, appends the records to the conversation of the
    session in file order and keeps the advanced parser. *)
Theorem on_modified_appends (json_loads : string → option Dict)
    (fs : conversation_parser.FileSystem) (now : Z) (clk : Clock)
    (ev : file_monitor.FileSystemEvent)
    (h : file_monitor.ConversationFileHandler) (st : SessionStore)
    (sid : string) (s : Session) (batch : list Dict)
    (p' : conversation_parser.ConversationParser) :
  file_monitor.is_directory ev = false →
  conversation_parser.path_name (file_monitor.src_path ev) = "conversation.jsonl" →
  file_monitor.debounce_delay ≤
    now - default 0 (file_monitor.debounce_times h !! file_monitor.src_path ev) →
  sid = conversation_parser.path_name
          (conversation_parser.path_parent (file_monitor.src_path ev)) →
  conversation_parser.parse_incremental json_loads fs
    (default (conversation_parser.new_parser
                (conversation_parser.path_parent (file_monitor.src_path ev)))
             (file_monitor.parsers h !! sid)) = (batch, p') →
  conversation_parser.detect_clear_command batch = Some false →
  sessions st !! sid = Some s →
  let r := file_monitor.on_modified json_loads fs now clk ev h st in
  conversation_of sid r.1.2 = (conversation s ++ batch)%list ∧
  file_monitor.parsers r.1.1 !! sid = Some p' ∧
  (∀ sid', sid' ≠ sid → sessions r.1.2 !! sid' = sessions st !! sid').
Proof.
  intros Hdir Hname Hdeb -> Hparse Hclear Hs r. subst r.
  unfold file_monitor.on_modified.
  rewrite Hdir, Hname. simpl. rewrite (proj2 (Z.ltb_ge _ _)) by done.
  rewrite Hparse, Hclear. simpl.
  split; [by apply add_messages_conversation|].
  split; [by rewrite lookup_insert_eq|].
  intros sid' Hd. clear Hparse Hclear Hs. revert clk st.
  induction batch as [|m ms IH]; intros clk st; [done|].
  simpl. rewrite IH. unfold add_message.
  destruct (sessions st !! _); [|done]. simpl. by rewrite lookup_insert_ne.
Qed.

Lemma on_modified_appends_witness :
  let st := process_event (fun _ => 0) (hook "SessionStart" "s1") empty_store in
  let r := file_monitor.on_modified demo_loads (demo_fs seed_text) 1000
             (fun _ => 5) (modified demo_file) file_monitor.new_handler st in
  conversation_of "s1" r.1.2 =
    [record_of "user" "one"; record_of "assistant" "two"; record_of "user" "three"].
Proof.
  intros st r.
  assert (Hdeb : file_monitor.debounce_delay ≤ 1000 - 0) by (vm_compute; discriminate).
  exact (proj1 (on_modified_appends demo_loads (demo_fs seed_text) 1000 (fun _ => 5)
              (modified demo_file) file_monitor.new_handler st "s1"
              (new_session "s1" 0 0)
              [record_of "user" "one"; record_of "assistant" "two";
               record_of "user" "three"]
              {| conversation_parser.session_dir := ["sessions"; "s1"];
                 conversation_parser.conversation_file := demo_file;
                 conversation_parser.last_position :=
                   String.length seed_text |}
              eq_refl eq_refl Hdeb eq_refl eq_refl eq_refl eq_refl)).
Defined.

(** X20. [on_modified] never creates a session.  For a log whose session
    the store does not hold, the store is left as it was, while the parser
    kept for the session has moved on (to the end of the text read, or
    back to 0 on [/clear]): the records read are in no conversation. *)
Theorem on_modified_unknown_session (json_loads : string → option Dict)
    (fs : conversation_parser.FileSystem) (now : Z) (clk : Clock)
    (ev : file_monitor.FileSystemEvent)
    (h : file_monitor.ConversationFileHandler) (st : SessionStore)
    (sid : string) (batch : list Dict)
    (p' : conversation_parser.ConversationParser) :
  file_monitor.is_directory ev = false →
  conversation_parser.path_name (file_monitor.src_path ev) = "conversation.jsonl" →
  file_monitor.debounce_delay ≤
    now - default 0 (file_monitor.debounce_times h !! file_monitor.src_path ev) →
  sid = conversation_parser.path_name
          (conversation_parser.path_parent (file_monitor.src_path ev)) →
  conversation_parser.parse_incremental json_loads fs
    (default (conversation_parser.new_parser
                (conversation_parser.path_parent (file_monitor.src_path ev)))
             (file_monitor.parsers h !! sid)) = (batch, p') →
  sessions st !! sid = None →
  let r := file_monitor.on_modified json_loads fs now clk ev h st in
  r.1.2 = st ∧
  file_monitor.parsers r.1.1 !! sid =
    Some (match conversation_parser.detect_clear_command batch with
          | Some true => conversation_parser.reset p'
          | _ => p'
          end).
Proof.
  intros Hdir Hname Hdeb -> Hparse Hs r. subst r.
  unfold file_monitor.on_modified.
  rewrite Hdir, Hname. simpl. rewrite (proj2 (Z.ltb_ge _ _)) by done.
  rewrite Hparse.
  destruct (conversation_parser.detect_clear_command batch) as [[|]|]; simpl.
  - rewrite clear_conversation_unknown, add_messages_unknown by done.
    by rewrite lookup_insert_eq.
  - rewrite add_messages_unknown by done. by rewrite lookup_insert_eq.
  - by rewrite lookup_insert_eq.
Qed.

Lemma on_modified_unknown_session_witness :
  let r := file_monitor.on_modified demo_loads (demo_fs seed_text) 1000
             (fun _ => 5) (modified demo_file) file_monitor.new_handler
             empty_store in
  r.1.2 = empty_store ∧
  (conversation_parser.last_position <$> file_monitor.parsers r.1.1 !! "s1")
    = Some (String.length seed_text).
Proof.
  intros r.
  assert (Hdeb : file_monitor.debounce_delay ≤ 1000 - 0) by (vm_compute; discriminate).
  destruct (on_modified_unknown_session demo_loads (demo_fs seed_text) 1000
              (fun _ => 5) (modified demo_file) file_monitor.new_handler
              empty_store "s1"
              [record_of "user" "one"; record_of "assistant" "two";
               record_of "user" "three"]
              {| conversation_parser.session_dir := ["sessions"; "s1"];
                 conversation_parser.conversation_file := demo_file;
                 conversation_parser.last_position :=
                   String.length seed_text |}
              eq_refl eq_refl Hdeb eq_refl eq_refl eq_refl) as (H1 & H2).
  split; [exact H1|]. fold r in H2. rewrite H2. reflexivity.
Defined.

(** X21. When the new records of a log hold a user message whose content
    is not a string, before any [/clear], [detect_clear_command] raises
    and [on_modified] is left by the exception: no record of the batch is
    added to the store, although the parser has read past them. *)
Theorem on_modified_raises (json_loads : string → option Dict)
    (fs : conversation_parser.FileSystem) (now : Z) (clk : Clock)
    (ev : file_monitor.FileSystemEvent)
    (h : file_monitor.ConversationFileHandler) (st : SessionStore)
    (sid : string) (pre post : list Dict) (bad : Dict)
    (p' : conversation_parser.ConversationParser) :
  file_monitor.is_directory ev = false →
  conversation_parser.path_name (file_monitor.src_path ev) = "conversation.jsonl" →
  file_monitor.debounce_delay ≤
    now - default 0 (file_monitor.debounce_times h !! file_monitor.src_path ev) →
  sid = conversation_parser.path_name
          (conversation_parser.path_parent (file_monitor.src_path ev)) →
  conversation_parser.parse_incremental json_loads fs
    (default (conversation_parser.new_parser
                (conversation_parser.path_parent (file_monitor.src_path ev)))
             (file_monitor.parsers h !! sid)) = ((pre ++ bad :: post)%list, p') →
  conversation_parser.detect_clear_command pre = Some false →
  conversation_parser.is_user bad = true → content_is_text bad = false →
  let r := file_monitor.on_modified json_loads fs now clk ev h st in
  r.2 = file_monitor.Raised ∧ r.1.2 = st ∧
  file_monitor.parsers r.1.1 !! sid = Some p'.
Proof.
  intros Hdir Hname Hdeb -> Hparse Hpre Hu Hbad r. subst r.
  unfold file_monitor.on_modified.
  rewrite Hdir, Hname. simpl. rewrite (proj2 (Z.ltb_ge _ _)) by done.
  rewrite Hparse.
  rewrite (detect_clear_raises pre post bad) by done.
  simpl. by rewrite lookup_insert_eq.
Qed.

Lemma on_modified_raises_witness :
  let st := process_event (fun _ => 0) (hook "SessionStart" "s1") empty_store in
  let text := unlines [line_of "user" "one"; q "{'type':'user','content':null}";
                       line_of "user" "two"] in
  let r := file_monitor.on_modified demo_loads_null (demo_fs text) 1000
             (fun _ => 5) (modified demo_file) file_monitor.new_handler st in
  r.2 = file_monitor.Raised ∧ conversation_of "s1" r.1.2 = [].
Proof.
  intros st text r.
  assert (Hdeb : file_monitor.debounce_delay ≤ 1000 - 0) by (vm_compute; discriminate).
  destruct (on_modified_raises demo_loads_null (demo_fs text) 1000 (fun _ => 5)
              (modified demo_file) file_monitor.new_handler st "s1"
              [record_of "user" "one"] [record_of "user" "two"]
              [("type", JStr "user"); ("content", JNull)]
              {| conversation_parser.session_dir := ["sessions"; "s1"];
                 conversation_parser.conversation_file := demo_file;
                 conversation_parser.last_position := String.length text |}
              eq_refl eq_refl Hdeb eq_refl eq_refl eq_refl eq_refl eq_refl)
    as (H1 & H2 & _).
  split; [exact H1|]. fold r in H2. rewrite H2. reflexivity.
Defined.

Section ScanExtras.
Import conversation_parser file_monitor.

Variable json_loads : string → option Dict.

Lemma scan_unknown_sessions (fs : FileSystem) (clks : nat → Clock)
    (entries : list (Path * bool)) (h : ConversationFileHandler) (st : SessionStore) :
  Forall (fun entry => sessions st !! path_name entry.1 = None) entries →
  (_scan_existing_sessions json_loads fs clks entries h st).2 = st.
Proof.
  revert clks h. induction entries as [|[dir is_dir] rest IH]; intros clks h Hall; [done|].
  apply Forall_cons in Hall as [Hdir Hrest]. simpl in *.
  destruct is_dir; simpl; [|by apply IH].
  destruct (fs !! (dir ++ ["conversation.jsonl"])%list); [|by apply IH].
  destruct (parse_full json_loads fs (new_parser dir)) as [messages parser].
  rewrite add_messages_unknown by done. by apply IH.
Qed.

End ScanExtras.

(** X22. The startup scan adds nothing for sessions the store does not
    hold: on such a store, and so on the empty store the service starts
    with, [_scan_existing_sessions] leaves the store as it was, whatever
    the logs hold. *)
Theorem startup_scan_adds_nothing (json_loads : string → option Dict)
    (fs : conversation_parser.FileSystem) (clks : nat → Clock)
    (entries : list (conversation_parser.Path * bool))
    (h : file_monitor.ConversationFileHandler) (st : SessionStore) :
  Forall (fun entry => sessions st !! conversation_parser.path_name entry.1 = None)
         entries →
  (file_monitor._scan_existing_sessions json_loads fs clks entries h st).2 = st ∧
  (file_monitor._scan_existing_sessions json_loads fs clks entries h empty_store).2
    = empty_store.
Proof.
  intros Hall. split; [by apply scan_unknown_sessions|].
  apply scan_unknown_sessions. apply Forall_forall. intros entry _. simpl.
  by rewrite lookup_empty.
Qed.

Lemma startup_scan_adds_nothing_witness :
  let r := file_monitor._scan_existing_sessions demo_loads (demo_fs seed_text)
             (fun _ _ => 0) [(["sessions"; "s1"], true)]
             file_monitor.new_handler empty_store in
  r.2 = empty_store ∧
  (conversation_parser.last_position <$> file_monitor.parsers r.1 !! "s1")
    = Some (String.length seed_text).
Proof.
  intros r. split; [|reflexivity].
  apply (startup_scan_adds_nothing demo_loads (demo_fs seed_text) (fun _ _ => 0)
           [(["sessions"; "s1"], true)] file_monitor.new_handler empty_store).
  repeat constructor.
Defined.

(** X23. A created event for the log of a session the store holds parses
    the log from offset 0 with a new parser and appends every record of
    it to the conversation, after what the conversation already held; the
    parser kept for the session then stands at the end of the log. *)
Theorem on_created_appends_whole_log (json_loads : string → option Dict)
    (fs : conversation_parser.FileSystem) (clk : Clock)
    (ev : file_monitor.FileSystemEvent)
    (h : file_monitor.ConversationFileHandler) (st : SessionStore)
    (sid content : string) (s : Session) :
  file_monitor.is_directory ev = false →
  conversation_parser.path_name (file_monitor.src_path ev) = "conversation.jsonl" →
  sid = conversation_parser.path_name
          (conversation_parser.path_parent (file_monitor.src_path ev)) →
  fs !! (conversation_parser.path_parent (file_monitor.src_path ev)
         ++ ["conversation.jsonl"])%list = Some content →
  sessions st !! sid = Some s →
  let r := file_monitor.on_created json_loads fs clk ev h st in
  conversation_of sid r.2 =
    (conversation s ++
     omap (conversation_parser.parse_line json_loads)
          (conversation_parser.readlines content))%list ∧
  (conversation_parser.last_position <$> file_monitor.parsers r.1 !! sid)
    = Some (String.length content).
Proof.
  intros Hdir Hname -> Hfile Hs r. subst r.
  unfold file_monitor.on_created. rewrite Hdir, Hname. simpl.
  rewrite (parse_full_records json_loads fs _ content) by done.
  split; [by apply add_messages_conversation|].
  simpl. by rewrite lookup_insert_eq.
Qed.

Lemma on_created_appends_whole_log_witness :
  let st := add_message (fun _ => 1) "s1" (record_of "user" "one")
              (process_event (fun _ => 0) (hook "SessionStart" "s1") empty_store) in
  let r := file_monitor.on_created demo_loads (demo_fs seed_text) (fun _ => 5)
             (modified demo_file) file_monitor.new_handler st in
  conversation_of "s1" r.2 =
    [record_of "user" "one";
     record_of "user" "one"; record_of "assistant" "two"; record_of "user" "three"].
Proof.
  intros st r.
  exact (proj1 (on_created_appends_whole_log demo_loads (demo_fs seed_text)
                  (fun _ => 5) (modified demo_file) file_monitor.new_handler st
                  "s1" seed_text
                  (set_updated_at 1
                     (set_conversation [record_of "user" "one"]
                        (set_phase IDLE (set_updated_at 0 (new_session "s1" 0 0)))))
                  eq_refl eq_refl eq_refl eq_refl eq_refl)).
Defined.

(** ** The D-Bus service *)

Section DBusExtras.
Import dbus_service.

Variable py_str : Json → string.

Lemma int32_not_boolean (n : Z) (v : Variant) :
  int32 n = Some v → ∃ m, v = VInt32 m.
Proof. unfold int32. destruct (_ && _); [|done]. intros [= <-]. eauto. Qed.

Lemma convert_value_not_boolean (value : Json) (v : Variant) :
  convert_value py_str value = Some v → ∀ b, v ≠ VBoolean b.
Proof.
  destruct value; simpl; intros Hv b' ->;
    try (apply int32_not_boolean in Hv as [m Hm]); done.
Qed.


End DBusExtras.

(** X24. [_convert_to_variant_dict] never builds a boolean variant: a
    parameter that is a JSON boolean is taken by the integer branch and
    sent as the 32-bit integer 1 or 0, under its key. *)
Theorem booleans_become_integers (py_str : Json → string)
    (fields : list (string * Json)) (out : list (string * dbus_service.Variant)) :
  dbus_service._convert_to_variant_dict py_str (JObj fields) = Some out →
  Forall (fun kv => ∀ b, kv.2 ≠ dbus_service.VBoolean b) out ∧
  ∀ k b, (k, JBool b) ∈ fields →
         (k, dbus_service.VInt32 (if b then 1 else 0)) ∈ out.
Proof.
  simpl. intros Hall%mapM_Some_1.
  induction Hall as [|[k v] [k' v'] fields out Hkv _ IH]; simpl in *.
  - split; [constructor|]. intros k b Hin. by apply elem_of_nil in Hin.
  - destruct (dbus_service.convert_value py_str v) as [w|] eqn:Hw; [|done].
    simpl in Hkv. injection Hkv as <- <-.
    destruct IH as [IH1 IH2]. split.
    + constructor; [|done]. simpl. by eapply convert_value_not_boolean.
    + intros k0 b Hin. apply elem_of_cons in Hin as [[= ? ?]|Hin].
      * subst k0 v. simpl in Hw. apply int32_not_boolean in Hw as Hm.
        destruct Hm as [m ->]. unfold dbus_service.int32 in Hw.
        destruct (_ && _); [|done]. injection Hw as <-. by left.
      * right. by apply IH2.
Qed.

Lemma booleans_become_integers_witness :
  dbus_service._convert_to_variant_dict (fun _ => "")
    (JObj [("force", JBool true); ("path", JStr "/x")]) =
  Some [("force", dbus_service.VInt32 1); ("path", dbus_service.VString "/x")] ∧
  ("force", dbus_service.VInt32 1) ∈
    [("force", dbus_service.VInt32 1); ("path", dbus_service.VString "/x")].
Proof.
  split; [reflexivity|].
  apply (proj2 (booleans_become_integers (fun _ => "")
                  [("force", JBool true); ("path", JStr "/x")] _ eq_refl)
               "force" true).
  by left.
Defined.



(** ** The hook installer *)

Section InstallerExtras.
Import hook_installer.

Variable hook_path : string.

Lemma dict_get_set_eq (k : string) (v : Json) (d : Dict) :
  dict_get k (dict_set k v d) = Some v.
Proof.
  induction d as [|[k' v'] d IH]; simpl.
  - by rewrite String.eqb_refl.
  - destruct (String.eqb k' k) eqn:Hk; simpl; by rewrite Hk.
Qed.

Lemma dict_get_set_ne (k k' : string) (v : Json) (d : Dict) :
  k ≠ k' → dict_get k' (dict_set k v d) = dict_get k' d.
Proof.
  intros Hne. induction d as [|[k0 v0] d IH]; simpl.
  - destruct (String.eqb_spec k k'); [done | done].
  - destruct (String.eqb_spec k0 k) as [->|Hk0]; simpl.
    + destruct (String.eqb_spec k k'); done.
    + destruct (String.eqb_spec k0 k'); done.
Qed.

Lemma dict_set_id (k : string) (v : Json) (d : Dict) :
  dict_get k d = Some v → dict_set k v d = d.
Proof.
  induction d as [|[k' v'] d IH]; simpl; [done|].
  destruct (String.eqb k' k); [by intros [= ->] | intros H; by rewrite IH].
Qed.

(** The hook type has a list of entries, one of which runs the script. *)
Definition registered (hooks : Dict) (hook_type : string) : Prop :=
  ∃ entries, dict_get hook_type hooks = Some (JArr entries) ∧
             _hook_exists entries hook_path = Some true.

Lemma hook_exists_append (entries : list Json) (timeout : Z) :
  _hook_exists entries hook_path = Some false →
  _hook_exists (entries ++ [hook_entry hook_path timeout]) hook_path = Some true.
Proof.
  induction entries as [|entry entries IH]; simpl.
  - intros _. by rewrite String.eqb_refl.
  - destruct entry; try done.
    destruct (iterate _ ≫= any_hook hook_path) as [[|]|]; try done.
Qed.

Lemma hook_exists_strings (keys : list string) :
  _hook_exists (map JStr keys) hook_path = Some true → False.
Proof. by destruct keys. Qed.

Lemma register_one_registered (hooks : Dict) (hook : string * Z) :
  registered hooks hook.1 → register_one hook_path hooks hook = Some hooks.
Proof.
  intros (entries & Hget & Hex). unfold register_one, dict_has.
  rewrite Hget. simpl. rewrite Hget. simpl. by rewrite Hex.
Qed.

Lemma register_one_result (hooks hooks' : Dict) (hook : string * Z) :
  register_one hook_path hooks hook = Some hooks' →
  registered hooks' hook.1 ∧
  (∀ t, t ≠ hook.1 → dict_get t hooks' = dict_get t hooks) ∧
  (∀ old, dict_get hook.1 hooks = Some (JArr old) →
          ∃ entries, dict_get hook.1 hooks' = Some (JArr entries) ∧
                     old `prefix_of` entries).
Proof.
  destruct hook as [t timeout]. unfold register_one. simpl.
  set (hooks1 := if dict_has t hooks then hooks else dict_set t (JArr []) hooks).
  assert (Hother : ∀ t', t' ≠ t → dict_get t' hooks1 = dict_get t' hooks).
  { intros t' Hd. subst hooks1. destruct (dict_has t hooks); [done|].
    by apply dict_get_set_ne. }
  assert (Hold : ∀ old, dict_get t hooks = Some (JArr old) →
                        dict_get t hooks1 = Some (JArr old)).
  { intros old Hget. subst hooks1. unfold dict_has. by rewrite Hget. }
  destruct (dict_get t hooks1) as [r|] eqn:Hr; simpl; [|done].
  destruct r as [| | |text|items|fields]; simpl; try done.
  - destruct (_hook_exists _ hook_path) as [[|]|] eqn:Hex; try done.
    exfalso. revert Hex. clear.
    destruct (list_ascii_of_string text); simpl; done.
  - destruct (_hook_exists items hook_path) as [[|]|] eqn:Hex; try done.
    + intros [= <-]. split; [by exists items|]. split; [done|].
      intros old Hget.
      assert (old = items) as -> by (specialize (Hold _ Hget); congruence).
      by exists items.
    + intros [= <-]. split; [|split].
      * eexists. split; [apply dict_get_set_eq|]. by apply hook_exists_append.
      * intros t' Hd. rewrite dict_get_set_ne by done. by apply Hother.
      * intros old Hget.
        assert (old = items) as -> by (specialize (Hold _ Hget); congruence).
        eexists. split; [apply dict_get_set_eq|]. by apply prefix_app_r.
  - destruct (_hook_exists _ hook_path) as [[|]|] eqn:Hex; try done.
    exfalso. revert Hex. clear. destruct fields; simpl; done.
Qed.

Lemma register_all_registered (hooks : Dict) (to_register : list (string * Z)) :
  Forall (fun hook => registered hooks hook.1) to_register →
  register_all hook_path hooks to_register = Some hooks.
Proof.
  induction 1 as [|hook rest Hhook _ IH]; [done|].
  simpl. by rewrite register_one_registered.
Qed.

Lemma register_all_result (to_register : list (string * Z)) (hooks hooks' : Dict) :
  register_all hook_path hooks to_register = Some hooks' →
  Forall (fun hook => registered hooks' hook.1) to_register ∧
  (∀ t, registered hooks t → registered hooks' t) ∧
  (∀ t, t ∉ to_register.*1 → dict_get t hooks' = dict_get t hooks) ∧
  (∀ t old, dict_get t hooks = Some (JArr old) →
            ∃ entries, dict_get t hooks' = Some (JArr entries) ∧
                       old `prefix_of` entries).
Proof.
  revert hooks. induction to_register as [|hook rest IH]; intros hooks; simpl.
  - intros [= <-]. repeat split; eauto.
  - destruct (register_one hook_path hooks hook) as [hooks1|] eqn:H1; simpl; [|done].
    intros Hrest.
    destruct (register_one_result _ _ _ H1) as (Hreg & Hother & Hpre).
    destruct (IH _ Hrest) as (Hall & Hkeep & Hforeign & Hpre').
    assert (Hkeep1 : ∀ t, registered hooks t → registered hooks1 t).
    { intros t (entries & Hget & Hex).
      destruct (decide (t = hook.1)) as [->|Hd]; [done|].
      exists entries. by rewrite Hother. }
    split; [constructor; [by apply Hkeep | done]|].
    split; [intros t Ht; by apply Hkeep, Hkeep1|].
    split.
    + intros t Hnot. apply not_elem_of_cons in Hnot as [Hd Hnot].
      rewrite Hforeign by done. by apply Hother.
    + intros t old Hget.
      destruct (decide (t = hook.1)) as [->|Hd].
      * destruct (Hpre _ Hget) as (mid & Hmid & Hp1).
        destruct (Hpre' _ _ Hmid) as (entries & Hent & Hp2).
        exists entries. split; [done|]. by etrans.
      * apply Hpre'. by rewrite Hother.
Qed.

End InstallerExtras.

(** X26. Updating the settings is idempotent: what [_update_settings]
    writes, it writes again unchanged when run on its own output, so a
    second installation registers no hook twice. *)
Theorem update_settings_idempotent (hook_path : string) (existing : option Json)
    (out : Json) :
  hook_installer._update_settings hook_path existing = Some out →
  hook_installer._update_settings hook_path (Some out) = Some out.
Proof.
  intros Hout.
  assert (Hshape : ∃ settings1 hooks hooks',
             out = JObj (hook_installer.dict_set "hooks" (JObj hooks') settings1) ∧
             hook_installer.register_all hook_path hooks
               hook_installer.hooks_to_register = Some hooks').
  { revert Hout. unfold hook_installer._update_settings.
    destruct (default (JObj []) existing) as [| | | | |settings]; try done.
    destruct (dict_get "hooks" _) as [[| | | | |hooks]|]; try done.
    destruct (hook_installer.register_all hook_path hooks _) as [hooks'|] eqn:Hall;
      [|done].
    intros Hout. injection Hout as <-. eauto. }
  destruct Hshape as (settings1 & hooks & hooks' & -> & Hall).
  destruct (register_all_result _ _ _ _ Hall) as (Hreg & _).
  unfold hook_installer._update_settings.
  cbn -[hook_installer.register_all hook_installer.dict_set dict_get
        hook_installer.dict_has hook_installer.hooks_to_register].
  unfold hook_installer.dict_has. rewrite !dict_get_set_eq.
  rewrite (register_all_registered _ _ _ Hreg).
  cbn -[hook_installer.dict_set dict_get].
  do 2 f_equal. apply dict_set_id, dict_get_set_eq.
Qed.

Lemma update_settings_idempotent_witness :
  let path := "/home/u/.claude/hooks/claude-island-state.py" in
  ∃ out, hook_installer._update_settings path None = Some out ∧
         hook_installer._update_settings path (Some out) = Some out.
Proof.
  intros path.
  destruct (hook_installer._update_settings path None) as [out|] eqn:Hout;
    [|discriminate Hout].
  exists out. split; [reflexivity|].
  by apply (update_settings_idempotent path None).
Defined.

(** X27. When [_update_settings] succeeds, the settings written hold,
    under ["hooks"], a list for each of the ten hook types with an entry
    that runs the hook script.  Every other top-level setting is kept;
    under ["hooks"], hook types that are not among the ten are kept, and
    for each hook type the entries that were there stay, in order, in
    front of what is added. *)
Theorem update_settings_registers_hooks (hook_path : string)
    (settings : Dict) (out : Json) :
  hook_installer._update_settings hook_path (Some (JObj settings)) = Some out →
  ∃ settings' hooks',
    out = JObj settings' ∧
    dict_get "hooks" settings' = Some (JObj hooks') ∧
    Forall (fun hook =>
              ∃ entries, dict_get hook.1 hooks' = Some (JArr entries) ∧
                         hook_installer._hook_exists entries hook_path = Some true)
           hook_installer.hooks_to_register ∧
    (∀ k, k ≠ "hooks" → dict_get k settings' = dict_get k settings) ∧
    (∀ hooks, dict_get "hooks" settings = Some (JObj hooks) →
       (∀ t, t ∉ hook_installer.hooks_to_register.*1 →
             dict_get t hooks' = dict_get t hooks) ∧
       (∀ t old, dict_get t hooks = Some (JArr old) →
                 ∃ entries, dict_get t hooks' = Some (JArr entries) ∧
                            old `prefix_of` entries)).
Proof.
  unfold hook_installer._update_settings.
  cbn -[hook_installer.register_all hook_installer.dict_set dict_get
        hook_installer.dict_has hook_installer.hooks_to_register].
  match goal with
  | |- context [dict_get "hooks" ?x] => set (settings1 := x)
  end.
  assert (Hk : ∀ k, k ≠ "hooks" → dict_get k settings1 = dict_get k settings).
  { intros k Hd. subst settings1.
    destruct (hook_installer.dict_has "hooks" settings); [done|].
    by apply dict_get_set_ne. }
  assert (Hh : ∀ hooks, dict_get "hooks" settings = Some (JObj hooks) →
                        dict_get "hooks" settings1 = Some (JObj hooks)).
  { intros hooks Hget. subst settings1. unfold hook_installer.dict_has.
    by rewrite Hget. }
  destruct (dict_get "hooks" settings1) as [[| | | | |hooks1]|] eqn:H1; try done.
  destruct (hook_installer.register_all hook_path hooks1 _) as [hooks'|] eqn:Hall;
    [|done].
  intros Hout. injection Hout as <-.
  destruct (register_all_result _ _ _ _ Hall) as (Hreg & _ & Hforeign & Hpre).
  eexists _, hooks'. split; [done|].
  split; [apply dict_get_set_eq|].
  split; [exact Hreg|].
  split.
  - intros k Hd. rewrite dict_get_set_ne by done. by apply Hk.
  - intros hooks Hget.
    assert (hooks = hooks1) as -> by (specialize (Hh _ Hget); congruence).
    split; [exact Hforeign | exact Hpre].
Qed.

Lemma update_settings_registers_hooks_witness :
  let path := "/home/u/.claude/hooks/claude-island-state.py" in
  let settings := [("model", JStr "opus");
                   ("hooks", JObj [("Stop", JArr [JObj [("matcher", JStr "x")]])])] in
  ∃ out settings',
    hook_installer._update_settings path (Some (JObj settings)) = Some out ∧
    out = JObj settings' ∧ dict_get "model" settings' = Some (JStr "opus").
Proof.
  intros path settings.
  destruct (hook_installer._update_settings path (Some (JObj settings)))
    as [out|] eqn:Hout; [|discriminate Hout].
  destruct (update_settings_registers_hooks path settings out Hout)
    as (settings' & hooks' & -> & _ & _ & Hk & _).
  exists (JObj settings'), settings'. split; [reflexivity|]. split; [reflexivity|].
  rewrite Hk by discriminate. reflexivity.
Defined.

(** ** The hook script *)

Section HookScriptExtras.
Import hook_script.

Lemma is_permission_request_has_tty (event : Dict) (has_tty : bool) :
  is_permission_request (hook_installer.dict_set "has_tty" (JBool has_tty) event)
  = is_permission_request event.
Proof.
  unfold is_permission_request. by rewrite dict_get_set_ne.
Qed.

End HookScriptExtras.

(** X28. For a PermissionRequest the hook script always prints one
    response and exits with status 0, and it fails closed: it prints what
    the backend answered when that is a non-empty value, and otherwise
    (timeout, no socket, any other exception, no bytes, an empty value) a
    response whose decision is "deny".  For any other event it prints
    nothing. *)
Theorem hook_script_fails_closed (event : Dict) (has_tty : bool)
    (exchange : hook_script.Exchange) :
  hook_script.is_permission_request event = true →
  ∃ out, hook_script.main (hook_script.EventRead event) has_tty exchange
         = (Some out, 0) ∧
         (∀ r, exchange = hook_script.Completes (Some r) →
               hook_script.truthy r = true → out = r) ∧
         ((∀ r, exchange = hook_script.Completes (Some r) →
                hook_script.truthy r = false) →
          decision_of out = Some (JStr "deny")).
Proof.
  intros Hperm. unfold hook_script.main.
  rewrite is_permission_request_has_tty, Hperm.
  destruct exchange as [[| |message]|[r|]]; simpl.
  - eexists. split; [done|]. split; [done|]. done.
  - eexists. split; [done|]. split; [done|]. done.
  - eexists. split; [done|]. split; [done|]. done.
  - rewrite is_permission_request_has_tty, Hperm.
    destruct (hook_script.truthy r) eqn:Hr.
    + eexists. split; [done|]. split; [by intros r' [= <-]|].
      intros Hall. specialize (Hall r eq_refl). congruence.
    + eexists. split; [done|]. split; [|done].
      intros r' [= <-]. congruence.
  - rewrite is_permission_request_has_tty, Hperm.
    eexists. split; [done|]. split; [done|]. done.
Qed.

Lemma hook_script_fails_closed_witness :
  hook_script.main
    (hook_script.EventRead [("type", JStr "PermissionRequest");
                            ("session_id", JStr "B")])
    true (hook_script.Fails hook_script.NotFound)
  = (Some (hook_script.deny "Backend not running"), 0).
Proof.
  destruct (hook_script_fails_closed
              [("type", JStr "PermissionRequest"); ("session_id", JStr "B")]
              true (hook_script.Fails hook_script.NotFound) eq_refl)
    as (out & Hmain & _ & _).
  rewrite Hmain. vm_compute in Hmain. by injection Hmain as <-.
Defined.

(** The writer of a PermissionRequest once the frontend has decided. *)
Lemma writer_after_decision (clk : Clock) (e : Event)
    (c : socket_server.Conn) (sid decision : string)
    (srv : socket_server.HookSocketServer) :
  socket_server.writers srv !! c = None →
  type_is e "PermissionRequest" = true →
  ev_session_id e = Some sid → sid ≠ "" →
  socket_server.writers
    (socket_server.send_approval_response sid decision
       (socket_server.handle_client clk (socket_server.Decoded e) c srv)) !! c =
  Some [socket_server.Write socket_server.waiting_frame; socket_server.Close;
        socket_server.Write (socket_server.decision_frame decision)].
Proof.
  intros Hfresh Hty Hsid Hne.
  pose proof (handle_client_permission_log clk e c srv Hty) as Hlog.
  rewrite Hfresh in Hlog.
  assert (Hp : socket_server.pending_approvals
                 (socket_server.handle_client clk (socket_server.Decoded e) c srv)
               !! sid = Some c).
  { unfold socket_server.handle_client, socket_server.handle_client_finally.
    rewrite handle_client_try_decoded. cbv zeta.
    rewrite Hty, Hsid, (falsy_some _ Hne). simpl. by rewrite lookup_insert_eq. }
  unfold socket_server.send_approval_response. rewrite Hp.
  cbv zeta. cbn [socket_server.writers].
  rewrite writer_do_lookup, decide_True by done. by rewrite Hlog.
Qed.

(** X29. What the hook script gets from this server for a
    PermissionRequest: the only frame written on the connection before
    [handle_client] closes it is the acknowledgement, also once the
    frontend has decided; a hook that receives it prints the
    acknowledgement, which carries no decision. *)
Theorem hook_prints_acknowledgement (clk : Clock) (e : Event)
    (c : socket_server.Conn) (sid decision : string)
    (srv : socket_server.HookSocketServer) (event : Dict) (has_tty : bool) :
  socket_server.writers srv !! c = None →
  type_is e "PermissionRequest" = true →
  ev_session_id e = Some sid → sid ≠ "" →
  hook_script.is_permission_request event = true →
  let srv1 := socket_server.handle_client clk (socket_server.Decoded e) c srv in
  let srv2 := socket_server.send_approval_response sid decision srv1 in
  (delivered <$> socket_server.writers srv1 !! c)
    = Some [socket_server.waiting_frame] ∧
  (delivered <$> socket_server.writers srv2 !! c)
    = Some [socket_server.waiting_frame] ∧
  hook_script.main (hook_script.EventRead event) has_tty
    (hook_script.Completes (Some (frame_json socket_server.waiting_frame)))
    = (Some (frame_json socket_server.waiting_frame), 0) ∧
  decision_of (frame_json socket_server.waiting_frame) = None.
Proof.
  intros Hfresh Hty Hsid Hne Hperm srv1 srv2.
  split; [|split; [|split]].
  - subst srv1.
    pose proof (handle_client_permission_log clk e c srv Hty) as Hlog.
    rewrite Hfresh in Hlog.
    by rewrite Hlog.
  - subst srv2 srv1.
    rewrite (writer_after_decision clk e c sid decision srv) by done.
    done.
  - unfold hook_script.main. rewrite is_permission_request_has_tty, Hperm. simpl.
    by rewrite is_permission_request_has_tty, Hperm.
  - done.
Qed.

Lemma hook_prints_acknowledgement_witness :
  let c : Clock := fun i => Z.of_nat i in
  let e := tool_hook "PermissionRequest" "B" "Bash" None None in
  let event := [("type", JStr "PermissionRequest"); ("session_id", JStr "B")] in
  hook_script.main (hook_script.EventRead event) false
    (hook_script.Completes (Some (frame_json socket_server.waiting_frame)))
  = (Some (JObj [("status", JStr "waiting_for_approval")]), 0).
Proof.
  intros c e event.
  destruct (hook_prints_acknowledgement c e 0%nat "B" "allow"
              (socket_server.new_server empty_store) event false
              eq_refl eq_refl eq_refl ltac:(discriminate) eq_refl)
    as (_ & _ & Hmain & _).
  exact Hmain.
Defined.

(** X30. An installation that fails on the settings is not retried: when
    the settings file is not JSON, or [_update_settings] raises on it,
    [install] raises after it has copied the script and leaves the
    settings as they were; [is_installed] then holds, so the next start of
    the service skips the installation and goes on with no hook
    registered. *)
Theorem failed_install_is_not_retried (hook_path script : string)
    (resource : option string) (home : hook_installer.Home) :
  (hook_installer.settings_file home = hook_installer.Undecodable ∨
   ∃ settings, hook_installer.settings_file home = hook_installer.Holds settings ∧
               hook_installer._update_settings hook_path (Some settings) = None) →
  let r := hook_installer.install hook_path (Some script) home in
  r.2 = file_monitor.Raised ∧
  hook_installer.is_installed r.1 = true ∧
  hook_installer.settings_file r.1 = hook_installer.settings_file home ∧
  hook_installer.install_on_first_run hook_path resource r.1 = (r.1, true).
Proof.
  intros Hbad r. subst r. unfold hook_installer.install. cbn [hook_installer.settings_file].
  assert (Hup : match hook_installer.settings_file home with
                | hook_installer.NoFile => hook_installer._update_settings hook_path None
                | hook_installer.Undecodable => None
                | hook_installer.Holds settings =>
                    hook_installer._update_settings hook_path (Some settings)
                end = None).
  { destruct Hbad as [->|(settings & -> & Hnone)]; done. }
  rewrite Hup. done.
Qed.

Lemma failed_install_is_not_retried_witness :
  let path := "/home/u/.claude/hooks/claude-island-state.py" in
  let home := {| hook_installer.hook_script := None;
                 hook_installer.settings_file :=
                   hook_installer.Holds (JObj [("hooks", JArr [])]) |} in
  let r := hook_installer.install path (Some "#!/usr/bin/env python3") home in
  r.2 = file_monitor.Raised ∧ hook_installer.is_installed r.1 = true ∧
  hook_installer.install_on_first_run path (Some "#!/usr/bin/env python3") r.1
    = (r.1, true).
Proof.
  intros path home r.
  destruct (failed_install_is_not_retried path "#!/usr/bin/env python3"
              (Some "#!/usr/bin/env python3") home) as (H1 & H2 & _ & H4).
  - right. eexists. split; reflexivity.
  - split; [exact H1|]. split; [exact H2 | exact H4].
Defined.
